(** * Catalog chunk lifecycle, chunk metadata and wire conversion of
    influxdb_iox, embedded in Rocq.

    Sources:
    - server/src/db/catalog/chunk.rs        (catalog chunk state machine)
    - server/src/db/catalog.rs              (catalog listings)
    - data_types/src/chunk_metadata.rs      (ChunkOrder, ChunkId, ChunkSummary)
    - generated_types/src/chunk.rs          (wire conversion)
    - read_buffer/src/chunk.rs              (Chunk::column_values)
    - influxdb_iox/src/influxdb_ioxd/http/write.rs (HTTP write route) *)

From Stdlib Require Import String ZArith List Lia Bool.
From Stdlib Require Strings.Byte.
Import ListNotations.
Open Scope Z_scope.

(** ** Results of fallible Rust code.
    [ROk] and [RErr] are the two arms of [Result]; [RPanic] is a panic
    (an [assert!], [expect] or [panic!]) that unwinds out of the call. *)
Inductive Res (E A : Type) : Type :=
| ROk (a : A)
| RErr (e : E)
| RPanic (msg : string).
Arguments ROk {E A} a.
Arguments RErr {E A} e.
Arguments RPanic {E A} msg.

Definition res_map {E A B} (f : A -> B) (r : Res E A) : Res E B :=
  match r with
  | ROk a => ROk (f a)
  | RErr e => RErr e
  | RPanic m => RPanic m
  end.

Definition res_map_err {E F A} (f : E -> F) (r : Res E A) : Res F A :=
  match r with
  | ROk a => ROk a
  | RErr e => RErr (f e)
  | RPanic m => RPanic m
  end.

Definition res_bind {E A B} (r : Res E A) (k : A -> Res E B) : Res E B :=
  match r with
  | ROk a => k a
  | RErr e => RErr e
  | RPanic m => RPanic m
  end.

(** The [?] operator. *)
Notation "'let?' x := r 'in' k" := (res_bind r (fun x => k))
  (at level 200, x name, r at level 100, k at level 200).

Definition is_panic {E A} (r : Res E A) : bool :=
  match r with RPanic _ => true | _ => false end.

(** ** server/src/db/catalog/chunk.rs *)
Module CatalogChunk.

Section Lifecycle.

(** The payloads of the states: the mutable buffer chunk, the read buffer
    database and the parquet chunk.  None of the transitions looks inside
    them, so they stay abstract. *)
Context {MBChunk ReadBufferDb ParquetChunk : Type}.

Inductive ChunkState : Type :=
| Invalid
| Open (mb : MBChunk)
| Closing (mb : MBChunk)
| Moving (mb : MBChunk)                 (* Arc<MBChunk> *)
| Moved (db : ReadBufferDb)             (* Arc<ReadBufferDb> *)
| WritingToObjectStore (db : ReadBufferDb)
| WrittenToObjectStore (db : ReadBufferDb) (pq : ParquetChunk).

Definition name (s : ChunkState) : string :=
  match s with
  | Invalid => "Invalid"
  | Open _ => "Open"
  | Closing _ => "Closing"
  | Moving _ => "Moving"
  | Moved _ => "Moved"
  | WritingToObjectStore _ => "Writing to Object Store"
  | WrittenToObjectStore _ _ => "Written to Object Store"
  end.

(** [DateTime<Utc>] as nanoseconds since the epoch. *)
Definition DateTime := Z.

Record Chunk : Type := mkChunk {
  partition_key : string;
  id : Z;                                  (* u32 *)
  state : ChunkState;
  time_of_first_write : option DateTime;
  time_of_last_write : option DateTime;
  time_closing : option DateTime
}.

Definition with_state (c : Chunk) (s : ChunkState) : Chunk :=
  mkChunk (partition_key c) (id c) s
    (time_of_first_write c) (time_of_last_write c) (time_closing c).

Definition with_time_closing (c : Chunk) (t : option DateTime) : Chunk :=
  mkChunk (partition_key c) (id c) (state c)
    (time_of_first_write c) (time_of_last_write c) t.

(** The [InternalChunkState] error of the catalog. *)
Record InternalChunkState : Type := mkInternalChunkState {
  err_partition_key : string;
  err_chunk_id : Z;
  err_operation : string;
  err_expected : string;
  err_actual : string
}.

Definition Result (A : Type) := Res InternalChunkState A.

(** The [unexpected_state!] macro. *)
Definition unexpected_state {A} (c : Chunk) (op expected : string)
    (s : ChunkState) : Result A :=
  RErr (mkInternalChunkState (partition_key c) (id c) op expected (name s)).

(** [Chunk::new] *)
Definition new (pk : string) (cid : Z) (s : ChunkState) : Chunk :=
  mkChunk pk cid s None None None.

(** [Chunk::new_open]: the mutable buffer chunk is created by the caller
    ([mutable_buffer::chunk::Chunk::new(id)]). *)
Definition new_open (pk : string) (cid : Z) (mb : MBChunk) : Chunk :=
  new pk cid (Open mb).

(** [Chunk::record_write]; [now] is [Utc::now()]. *)
Definition record_write (now : DateTime) (c : Chunk) : Chunk :=
  let first := match time_of_first_write c with
               | None => Some now
               | Some t => Some t
               end in
  mkChunk (partition_key c) (id c) (state c) first (Some now) (time_closing c).

(** [Chunk::mutable_buffer]: the returned [&mut MBChunk] is modelled by the
    update [f] the caller applies through it. *)
Definition mutable_buffer (f : MBChunk -> MBChunk) (c : Chunk)
    : Result unit * Chunk :=
  match state c with
  | Open mb => (ROk tt, with_state c (Open (f mb)))
  | Closing mb => (ROk tt, with_state c (Closing (f mb)))
  | s => (unexpected_state c "mutable buffer reference" "Open or Closing" s, c)
  end.

(** [Chunk::set_closing].  The state is first swapped out for [Invalid]
    ([std::mem::swap]); every path below installs a state again except the
    failing [assert!]. *)
Definition set_closing (now : DateTime) (c : Chunk) : Result unit * Chunk :=
  let s := state c in
  let c := with_state c Invalid in
  match s with
  | Open mb | Closing mb =>
      match time_closing c with
      | Some _ => (RPanic "assertion failed: self.time_closing.is_none()", c)
      | None =>
          let c := with_time_closing c (Some now) in
          (ROk tt, with_state c (Closing mb))
      end
  | st =>
      let c := with_state c st in
      (unexpected_state c "setting closing" "Open or Closing" (state c), c)
  end.

(** [Chunk::set_moving] *)
Definition set_moving (c : Chunk) : Result MBChunk * Chunk :=
  let s := state c in
  let c := with_state c Invalid in
  match s with
  | Open chunk | Closing chunk =>
      (ROk chunk, with_state c (Moving chunk))
  | st =>
      let c := with_state c st in
      (unexpected_state c "setting moving" "Open or Closing" (state c), c)
  end.

(** [Chunk::set_moved] *)
Definition set_moved (db : ReadBufferDb) (c : Chunk) : Result unit * Chunk :=
  let s := state c in
  let c := with_state c Invalid in
  match s with
  | Moving _ => (ROk tt, with_state c (Moved db))
  | st =>
      let c := with_state c st in
      (unexpected_state c "setting moved" "Moving" (state c), c)
  end.

(** [Chunk::set_writing_to_object_store] *)
Definition set_writing_to_object_store (c : Chunk)
    : Result ReadBufferDb * Chunk :=
  let s := state c in
  let c := with_state c Invalid in
  match s with
  | Moved db => (ROk db, with_state c (WritingToObjectStore db))
  | st =>
      let c := with_state c st in
      (unexpected_state c "setting object store" "Moved" (state c), c)
  end.

(** [Chunk::set_written_to_object_store] *)
Definition set_written_to_object_store (pq : ParquetChunk) (c : Chunk)
    : Result unit * Chunk :=
  let s := state c in
  let c := with_state c Invalid in
  match s with
  | WritingToObjectStore db => (ROk tt, with_state c (WrittenToObjectStore db pq))
  | st =>
      let c := with_state c st in
      (unexpected_state c "setting object store" "MovingToObjectStore"
         (state c), c)
  end.

(** The five lifecycle transitions, with their arguments. *)
Inductive Transition : Type :=
| TSetClosing (now : DateTime)
| TSetMoving
| TSetMoved (db : ReadBufferDb)
| TSetWritingToObjectStore
| TSetWrittenToObjectStore (pq : ParquetChunk).

(** Runs a transition, forgetting the handle returned on success. *)
Definition transition (t : Transition) (c : Chunk) : Result unit * Chunk :=
  match t with
  | TSetClosing now => set_closing now c
  | TSetMoving => let (r, c') := set_moving c in (res_map (fun _ => tt) r, c')
  | TSetMoved db => set_moved db c
  | TSetWritingToObjectStore =>
      let (r, c') := set_writing_to_object_store c in
      (res_map (fun _ => tt) r, c')
  | TSetWrittenToObjectStore pq => set_written_to_object_store pq c
  end.

(** The operation name and expected-state text each transition puts into
    its [InternalChunkState] error. *)
Definition operation_of (t : Transition) : string :=
  match t with
  | TSetClosing _ => "setting closing"
  | TSetMoving => "setting moving"
  | TSetMoved _ => "setting moved"
  | TSetWritingToObjectStore => "setting object store"
  | TSetWrittenToObjectStore _ => "setting object store"
  end.

Definition expected_of (t : Transition) : string :=
  match t with
  | TSetClosing _ | TSetMoving => "Open or Closing"
  | TSetMoved _ => "Moving"
  | TSetWritingToObjectStore => "Moved"
  | TSetWrittenToObjectStore _ => "MovingToObjectStore"
  end.

(** The states each transition's [match] accepts. *)
Definition accepts (t : Transition) (s : ChunkState) : bool :=
  match t, s with
  | (TSetClosing _ | TSetMoving), (Open _ | Closing _) => true
  | TSetMoved _, Moving _ => true
  | TSetWritingToObjectStore, Moved _ => true
  | TSetWrittenToObjectStore _, WritingToObjectStore _ => true
  | _, _ => false
  end.

(** The transition table of the specification (section 4.4), to be
    compared with [accepts]. *)
Definition spec_table_legal (t : Transition) (s : ChunkState) : bool :=
  match t, s with
  | TSetClosing _, Open _ => true
  | TSetMoving, (Open _ | Closing _) => true
  | TSetMoved _, Moving _ => true
  | TSetWritingToObjectStore, Moved _ => true
  | TSetWrittenToObjectStore _, WritingToObjectStore _ => true
  | _, _ => false
  end.

(** Every mutating operation of the public interface of a chunk. *)
Inductive Op : Type :=
| OpTransition (t : Transition)
| OpRecordWrite (now : DateTime)
| OpMutableBuffer (f : MBChunk -> MBChunk).

Definition run_op (o : Op) (c : Chunk) : Result unit * Chunk :=
  match o with
  | OpTransition t => transition t c
  | OpRecordWrite now => (ROk tt, record_write now c)
  | OpMutableBuffer f => mutable_buffer f c
  end.

(** Chunks an observer can hold: created by [Chunk::new] in a real state,
    then changed by operations that returned ([Ok] or [Err]). *)
Inductive reachable : Chunk -> Prop :=
| reachable_new pk cid s :
    s <> Invalid -> reachable (new pk cid s)
| reachable_op c o :
    reachable c ->
    is_panic (fst (run_op o c)) = false ->
    reachable (snd (run_op o c)).

(** The place of a state along the lifecycle Open, Closing, Moving, Moved,
    WritingToObjectStore, WrittenToObjectStore (the order of the variants of
    [ChunkState]), with the [Invalid] sentinel first. *)
Definition lifecycle_position (s : ChunkState) : nat :=
  match s with
  | Invalid => 0
  | Open _ => 1
  | Closing _ => 2
  | Moving _ => 3
  | Moved _ => 4
  | WritingToObjectStore _ => 5
  | WrittenToObjectStore _ _ => 6
  end.

End Lifecycle.

Section Queries.

Context {MBChunk ReadBufferDb ParquetChunk : Type}.

(** What [has_table] and [size] ask of the payloads: the mutable buffer
    chunk's [has_table] and [size], the read buffer database's [has_table]
    and [chunks_size] (an [Option<u64>]) for a partition key and a list of
    chunk ids, and the parquet chunk's [size]. *)
Variable mb_has_table : MBChunk -> string -> bool.
Variable mb_size : MBChunk -> Z.
Variable db_has_table : ReadBufferDb -> string -> string -> list Z -> bool.
Variable db_chunks_size : ReadBufferDb -> string -> list Z -> option Z.
Variable pq_size : ParquetChunk -> Z.

(** [usize] addition as a release build performs it: wrapping at 2^64. *)
Definition usize_add (a b : Z) : Z := (a + b) mod 2 ^ 64.

(** [u64 as usize] on a 64-bit target. *)
Definition u64_as_usize (x : Z) : Z := x mod 2 ^ 64.

Definition unwrap_or {A} (o : option A) (d : A) : A :=
  match o with Some x => x | None => d end.

(** [Chunk::has_table] *)
Definition has_table (c : @Chunk MBChunk ReadBufferDb ParquetChunk)
    (table_name : string) : bool :=
  match state c with
  | Invalid => false
  | Open chunk | Closing chunk => mb_has_table chunk table_name
  | Moving chunk => mb_has_table chunk table_name
  | Moved db => db_has_table db (partition_key c) table_name [id c]
  | WritingToObjectStore db => db_has_table db (partition_key c) table_name [id c]
  | WrittenToObjectStore db _ => db_has_table db (partition_key c) table_name [id c]
  end.

(** [Chunk::size] *)
Definition size (c : @Chunk MBChunk ReadBufferDb ParquetChunk) : Z :=
  match state c with
  | Invalid => 0
  | Open chunk | Closing chunk => mb_size chunk
  | Moving chunk => mb_size chunk
  | Moved db =>
      u64_as_usize (unwrap_or (db_chunks_size db (partition_key c) [id c]) 0)
  | WritingToObjectStore db =>
      u64_as_usize (unwrap_or (db_chunks_size db (partition_key c) [id c]) 0)
  | WrittenToObjectStore db parquet_chunk =>
      usize_add (pq_size parquet_chunk)
        (u64_as_usize (unwrap_or (db_chunks_size db (partition_key c) [id c]) 0))
  end.

End Queries.

End CatalogChunk.

(** ** data_types/src/chunk_metadata.rs *)
Module ChunkMetadata.

Definition u32_MAX : Z := 2 ^ 32 - 1.

(** [u32::checked_add] *)
Definition checked_add_u32 (a b : Z) : option Z :=
  if a + b <=? u32_MAX then Some (a + b) else None.

(** [NonZeroU32::new] *)
Definition NonZeroU32_new (n : Z) : option Z :=
  if n =? 0 then None else Some n.

(** [ChunkOrder(NonZeroU32)] *)
Record ChunkOrder : Type := mkChunkOrder { get : Z }.

Definition MIN : ChunkOrder := mkChunkOrder 1.
Definition MAX : ChunkOrder := mkChunkOrder u32_MAX.

(** [ChunkOrder::new(order: u32)] *)
Definition new (order : Z) : option ChunkOrder :=
  option_map mkChunkOrder (NonZeroU32_new order).

(** [ChunkOrder::next]: both [expect]s panic on [None]. *)
Definition next (o : ChunkOrder) : Res unit ChunkOrder :=
  match checked_add_u32 (get o) 1 with
  | None => RPanic "chunk order overflow"
  | Some v =>
      match NonZeroU32_new v with
      | None => RPanic "did not overflow, so cannot be zero"
      | Some nz => ROk (mkChunkOrder nz)
      end
  end.

(** [Uuid]: sixteen bytes ([[u8; 16]]). *)
Record Uuid : Type := mkUuid {
  u0 : Byte.byte; u1 : Byte.byte; u2 : Byte.byte; u3 : Byte.byte;
  u4 : Byte.byte; u5 : Byte.byte; u6 : Byte.byte; u7 : Byte.byte;
  u8 : Byte.byte; u9 : Byte.byte; u10 : Byte.byte; u11 : Byte.byte;
  u12 : Byte.byte; u13 : Byte.byte; u14 : Byte.byte; u15 : Byte.byte
}.

(** [Uuid::as_bytes().to_vec()] *)
Definition as_bytes (u : Uuid) : list Byte.byte :=
  [u0 u; u1 u; u2 u; u3 u; u4 u; u5 u; u6 u; u7 u;
   u8 u; u9 u; u10 u; u11 u; u12 u; u13 u; u14 u; u15 u].

(** [Uuid::from_slice] (and [<[u8; 16]>::try_from(Vec<u8>)]): succeeds
    exactly on sixteen bytes. *)
Definition from_slice (l : list Byte.byte) : option Uuid :=
  match l with
  | [x0; x1; x2; x3; x4; x5; x6; x7; x8; x9; x10; x11; x12; x13; x14; x15] =>
      Some (mkUuid x0 x1 x2 x3 x4 x5 x6 x7 x8 x9 x10 x11 x12 x13 x14 x15)
  | _ => None
  end.

(** [ChunkId(Uuid)] *)
Definition ChunkId := Uuid.

Inductive ChunkStorage : Type :=
| OpenMutableBuffer
| ClosedMutableBuffer
| ReadBuffer
| ReadBufferAndObjectStore
| ObjectStoreOnly.

Inductive ChunkLifecycleAction : Type :=
| Persisting
| Compacting
| CompactingObjectStore (target : ChunkId)
| Dropping
| LoadingReadBuffer.

(** [time::Time], a wrapper of chrono's [DateTime<Utc>].  chrono keeps a
    date and a time of day, the time of day as seconds and a fraction of
    nanoseconds that reaches from 1e9 up to 2e9 during a leap second; the
    pair below is the same information: the seconds since the epoch
    ([timestamp()]) and that fraction ([timestamp_subsec_nanos()]). *)
Record Time : Type := mkTime {
  time_secs : Z;                           (* i64 *)
  time_nanos : Z                           (* u32 *)
}.

Record ChunkSummary : Type := mkChunkSummary {
  partition_key : string;
  table_name : string;
  order : ChunkOrder;
  id : ChunkId;
  storage : ChunkStorage;
  lifecycle_action : option ChunkLifecycleAction;
  memory_bytes : Z;                       (* usize *)
  object_store_bytes : Z;                 (* usize *)
  row_count : Z;                          (* usize *)
  time_of_last_access : option Time;
  time_of_first_write : Time;
  time_of_last_write : Time
}.

(** [ChunkStorage::as_str] *)
Definition as_str (s : ChunkStorage) : string :=
  match s with
  | OpenMutableBuffer => "OpenMutableBuffer"
  | ClosedMutableBuffer => "ClosedMutableBuffer"
  | ReadBuffer => "ReadBuffer"
  | ReadBufferAndObjectStore => "ReadBufferAndObjectStore"
  | ObjectStoreOnly => "ObjectStoreOnly"
  end.

(** The derived [PartialEq] of [ChunkStorage]. *)
Definition storage_eqb (a b : ChunkStorage) : bool :=
  match a, b with
  | OpenMutableBuffer, OpenMutableBuffer
  | ClosedMutableBuffer, ClosedMutableBuffer
  | ReadBuffer, ReadBuffer
  | ReadBufferAndObjectStore, ReadBufferAndObjectStore
  | ObjectStoreOnly, ObjectStoreOnly => true
  | _, _ => false
  end.

(** Byte-wise equality of two byte sequences. *)
Fixpoint bytes_eqb (a b : list Byte.byte) : bool :=
  match a, b with
  | [], [] => true
  | x :: a', y :: b' => Byte.eqb x y && bytes_eqb a' b'
  | _, _ => false
  end.

(** The derived [PartialEq] of [Uuid] (and of [ChunkId]). *)
Definition uuid_eqb (a b : Uuid) : bool := bytes_eqb (as_bytes a) (as_bytes b).

(** The derived [PartialEq] of [ChunkLifecycleAction]. *)
Definition lifecycle_eqb (a b : ChunkLifecycleAction) : bool :=
  match a, b with
  | Persisting, Persisting | Compacting, Compacting
  | Dropping, Dropping | LoadingReadBuffer, LoadingReadBuffer => true
  | CompactingObjectStore x, CompactingObjectStore y => uuid_eqb x y
  | _, _ => false
  end.

(** The [PartialEq] of [Option<T>]. *)
Definition option_eqb {A} (eqb : A -> A -> bool) (a b : option A) : bool :=
  match a, b with
  | Some x, Some y => eqb x y
  | None, None => true
  | _, _ => false
  end.

(** [ChunkSummary::equal_without_timestamps_and_ids] *)
Definition equal_without_timestamps_and_ids (self other : ChunkSummary) : bool :=
  String.eqb (partition_key self) (partition_key other)
  && String.eqb (table_name self) (table_name other)
  && storage_eqb (storage self) (storage other)
  && option_eqb lifecycle_eqb (lifecycle_action self) (lifecycle_action other)
  && (memory_bytes self =? memory_bytes other)
  && (object_store_bytes self =? object_store_bytes other)
  && (row_count self =? row_count other).

(** [BytesToChunkIdError]: [CannotConvertBytes] wraps the [uuid::Error] of
    [Uuid::from_slice], which reports the length it found. *)
Inductive BytesToChunkIdError : Type :=
| CannotConvertBytes (found : nat).

(** [impl From<ChunkId> for Bytes] *)
Definition chunk_id_into_bytes (cid : ChunkId) : list Byte.byte := as_bytes cid.

(** [impl TryFrom<Bytes> for ChunkId] *)
Definition chunk_id_try_from_bytes (value : list Byte.byte)
    : Res BytesToChunkIdError ChunkId :=
  match from_slice value with
  | Some u => ROk u
  | None => RErr (CannotConvertBytes (length value))
  end.

(** [ChunkColumnSummary] *)
Record ChunkColumnSummary : Type := mkChunkColumnSummary {
  ccs_name : string;
  ccs_memory_bytes : Z                     (* usize *)
}.

(** [DetailedChunkSummary] *)
Record DetailedChunkSummary : Type := mkDetailedChunkSummary {
  inner : ChunkSummary;
  columns : list ChunkColumnSummary
}.

End ChunkMetadata.

(** ** generated_types/src/chunk.rs *)
Module Wire.
Import ChunkMetadata.

(** Modelled from the spec: the prost enumeration [management::ChunkStorage]
    generated from the management protobuf (not among the sources); the
    wire value [Unspecified] is [0], each storage tag its own code. *)
Inductive MChunkStorage : Type :=
| MUnspecified
| MOpenMutableBuffer
| MClosedMutableBuffer
| MReadBuffer
| MReadBufferAndObjectStore
| MObjectStoreOnly.

Definition storage_into_i32 (s : MChunkStorage) : Z :=
  match s with
  | MUnspecified => 0
  | MOpenMutableBuffer => 1
  | MClosedMutableBuffer => 2
  | MReadBuffer => 3
  | MReadBufferAndObjectStore => 4
  | MObjectStoreOnly => 5
  end.

(** [management::ChunkStorage::from_i32] *)
Definition storage_from_i32 (n : Z) : option MChunkStorage :=
  if n =? 0 then Some MUnspecified
  else if n =? 1 then Some MOpenMutableBuffer
  else if n =? 2 then Some MClosedMutableBuffer
  else if n =? 3 then Some MReadBuffer
  else if n =? 4 then Some MReadBufferAndObjectStore
  else if n =? 5 then Some MObjectStoreOnly
  else None.

(** Modelled from the spec: the prost enumeration [management::Action]
    (not among the sources): an [Unspecified] tag and one tag per
    lifecycle action, with distinct codes. *)
Inductive MAction : Type :=
| AUnspecified
| APersisting
| ACompacting
| ACompactingObjectStore
| ADropping
| ALoadingReadBuffer.

Definition action_into_i32 (a : MAction) : Z :=
  match a with
  | AUnspecified => 0
  | APersisting => 1
  | ACompacting => 2
  | ACompactingObjectStore => 3
  | ADropping => 4
  | ALoadingReadBuffer => 5
  end.

(** [management::ChunkLifecycleAction] *)
Record MChunkLifecycleAction : Type := mkMChunkLifecycleAction {
  action : Z;                              (* i32 *)
  target_chunk_id : list Byte.byte         (* Vec<u8> *)
}.

(** [pbjson_types::Timestamp] *)
Record Timestamp : Type := mkTimestamp {
  seconds : Z;                             (* i64 *)
  nanos : Z                                (* i32 *)
}.

(** [management::Chunk] *)
Record MChunk : Type := mkMChunk {
  m_partition_key : string;
  m_table_name : string;
  m_id : list Byte.byte;                   (* Bytes *)
  m_storage : Z;                           (* i32 *)
  m_lifecycle_action : option MChunkLifecycleAction;
  m_memory_bytes : Z;                      (* u64 *)
  m_object_store_bytes : Z;                (* u64 *)
  m_row_count : Z;                         (* u64 *)
  m_time_of_last_access : option Timestamp;
  m_time_of_first_write : option Timestamp;
  m_time_of_last_write : option Timestamp;
  m_order : Z                              (* u32 *)
}.

(** [google::FieldViolation] *)
Record FieldViolation : Type := mkFieldViolation {
  field : string;
  description : string
}.

(** Modelled from the spec: [FieldViolation::required] (google.rs, not among
    the sources), a violation naming the missing field. *)
Definition fv_required (f : string) : FieldViolation :=
  mkFieldViolation f "Field is required".

(** Modelled from the spec: [FieldViolation::scope] (google.rs, not among
    the sources): the violation is attributed to field [f], nested in front
    of the inner field name when there is one. *)
Definition fv_scope (f : string) (v : FieldViolation) : FieldViolation :=
  mkFieldViolation
    (if String.eqb (field v) "" then f else (f ++ "." ++ field v)%string)
    (description v).

Definition DResult (A : Type) := Res FieldViolation A.

(** [x as u64] for [x : usize] and [x as usize] for [x : u64] on a
    64-bit target. *)
Definition usize_as_u64 (x : Z) : Z := x mod 2 ^ 64.
Definition u64_as_usize (x : Z) : Z := x mod 2 ^ 64.

(** [x as i32] for [x : u32]. *)
Definition u32_as_i32 (x : Z) : Z := if x <? 2 ^ 31 then x else x - 2 ^ 32.

(** pbjson_types' [From<DateTime<Utc>> for Timestamp] (an external crate):
    [seconds: value.timestamp()], [nanos: value.timestamp_subsec_nanos()
    as i32]. *)
Definition timestamp_of_time (t : Time) : Timestamp :=
  mkTimestamp (time_secs t) (u32_as_i32 (time_nanos t)).

Definition i32_MIN : Z := - 2 ^ 31.
Definition i32_MAX : Z := 2 ^ 31 - 1.

(** chrono's [MIN_YEAR] and [MAX_YEAR]: [i32::MIN >> 13] and
    [i32::MAX >> 13]. *)
Definition MIN_YEAR : Z := Z.shiftr i32_MIN 13.
Definition MAX_YEAR : Z := Z.shiftr i32_MAX 13.

(** The day number of January 1 of year [y] in the proleptic Gregorian
    calendar, counted as chrono's [num_days_from_ce] counts: 0001-01-01 is
    day 1. *)
Definition jan1_days_from_ce (y : Z) : Z :=
  365 * (y - 1) + (y - 1) / 4 - (y - 1) / 100 + (y - 1) / 400 + 1.

(** chrono's [NaiveDate::from_num_days_from_ce_opt]: it finds the year of
    the day and builds the date with [NaiveDate::from_of], which succeeds
    exactly when that year is within [MIN_YEAR..=MAX_YEAR], that is when
    the day lies from January 1 of [MIN_YEAR] up to the day before
    January 1 of [MAX_YEAR + 1].  (Its first step [days + 365] can only
    overflow [i32] for a day far past that range.) *)
Definition from_num_days_from_ce_ok (days : Z) : bool :=
  (jan1_days_from_ce MIN_YEAR <=? days) && (days <? jan1_days_from_ce (MAX_YEAR + 1)).

(** chrono's [NaiveTime::from_num_seconds_from_midnight_opt]: the seconds
    of the day below 86400 and the fraction below 2e9. *)
Definition from_num_seconds_from_midnight_ok (secs nano : Z) : bool :=
  (secs <? 86400) && (nano <? 2000000000).

(** chrono's [NaiveDateTime::from_timestamp_opt(secs, nsecs)]:
    [div_mod_floor(secs, 86_400)], the days through [to_i32],
    [checked_add(719_163)] and [from_num_days_from_ce_opt], the seconds of
    the day and [nsecs] through [from_num_seconds_from_midnight_opt]. *)
Definition from_timestamp_opt (secs nsecs : Z) : option Time :=
  let days := secs / 86400 in
  let sod := secs mod 86400 in
  let date_ok :=
    (i32_MIN <=? days) && (days <=? i32_MAX) &&
    (i32_MIN <=? days + 719163) && (days + 719163 <=? i32_MAX) &&
    from_num_days_from_ce_ok (days + 719163) in
  if date_ok && from_num_seconds_from_midnight_ok sod nsecs
  then Some (mkTime secs nsecs) else None.

(** pbjson_types' [TryFrom<Timestamp> for DateTime<Utc>] (an external
    crate): [NaiveDateTime::from_timestamp(seconds, nanos.try_into()?)].
    The [i32] to [u32] conversion of [nanos] is the only error
    ([TryFromIntError]); [from_timestamp] is [from_timestamp_opt(..)
    .expect("invalid or out-of-range datetime")]. *)
Definition datetime_try_from (t : Timestamp) : Res unit Time :=
  if nanos t <? 0 then RErr tt
  else match from_timestamp_opt (seconds t) (nanos t) with
       | Some d => ROk d
       | None => RPanic "invalid or out-of-range datetime"
       end.

(** The values of a chrono [DateTime<Utc>]: a fraction that is a [u32]
    and a date and time [from_timestamp_opt] builds. *)
Definition time_valid (t : Time) : bool :=
  (0 <=? time_nanos t) &&
  match from_timestamp_opt (time_secs t) (time_nanos t) with
  | Some _ => true
  | None => false
  end.

(** [impl From<ChunkStorage> for management::ChunkStorage] *)
Definition storage_to_proto (s : ChunkStorage) : MChunkStorage :=
  match s with
  | OpenMutableBuffer => MOpenMutableBuffer
  | ClosedMutableBuffer => MClosedMutableBuffer
  | ReadBuffer => MReadBuffer
  | ReadBufferAndObjectStore => MReadBufferAndObjectStore
  | ObjectStoreOnly => MObjectStoreOnly
  end.

(** [impl From<Option<ChunkLifecycleAction>> for
    management::ChunkLifecycleAction]; [random_uuid] is the fresh
    [ChunkId::new()] drawn by the conversion. *)
Definition lifecycle_to_proto (random_uuid : Uuid)
    (la : option ChunkLifecycleAction) : MChunkLifecycleAction :=
  let random_uuid := as_bytes random_uuid in
  match la with
  | Some Persisting => mkMChunkLifecycleAction (action_into_i32 APersisting) random_uuid
  | Some Compacting => mkMChunkLifecycleAction (action_into_i32 ACompacting) random_uuid
  | Some (CompactingObjectStore chunk_id) =>
      mkMChunkLifecycleAction (action_into_i32 ACompactingObjectStore)
        (as_bytes chunk_id)
  | Some Dropping => mkMChunkLifecycleAction (action_into_i32 ADropping) random_uuid
  | Some LoadingReadBuffer =>
      mkMChunkLifecycleAction (action_into_i32 ALoadingReadBuffer) random_uuid
  | None => mkMChunkLifecycleAction (action_into_i32 AUnspecified) random_uuid
  end.

(** [impl From<ChunkSummary> for management::Chunk] *)
Definition chunk_to_proto (random_uuid : Uuid) (s : ChunkSummary) : MChunk :=
  mkMChunk
    (partition_key s)
    (table_name s)
    (as_bytes (id s))
    (storage_into_i32 (storage_to_proto (storage s)))
    (Some (lifecycle_to_proto random_uuid (lifecycle_action s)))
    (usize_as_u64 (memory_bytes s))
    (usize_as_u64 (object_store_bytes s))
    (usize_as_u64 (row_count s))
    (option_map timestamp_of_time (time_of_last_access s))
    (Some (timestamp_of_time (time_of_first_write s)))
    (Some (timestamp_of_time (time_of_last_write s)))
    (get (order s)).

(** [impl TryFrom<management::ChunkStorage> for ChunkStorage] *)
Definition storage_try_from (m : MChunkStorage) : DResult ChunkStorage :=
  match m with
  | MOpenMutableBuffer => ROk OpenMutableBuffer
  | MClosedMutableBuffer => ROk ClosedMutableBuffer
  | MReadBuffer => ROk ReadBuffer
  | MReadBufferAndObjectStore => ROk ReadBufferAndObjectStore
  | MObjectStoreOnly => ROk ObjectStoreOnly
  | MUnspecified => RErr (fv_required "")
  end.

(** [impl TryFrom<management::ChunkLifecycleAction> for
    Option<ChunkLifecycleAction>]: the length check of [target_chunk_id]
    is an [unwrap_or_else(panic!)] that runs before the tag is looked at. *)
Definition lifecycle_try_from (p : MChunkLifecycleAction)
    : DResult (option ChunkLifecycleAction) :=
  match from_slice (target_chunk_id p) with
  | None => RPanic "Expected a Vec of length 16"
  | Some chunk_id =>
      let a := action p in
      if a =? action_into_i32 APersisting then ROk (Some Persisting)
      else if a =? action_into_i32 ACompacting then ROk (Some Compacting)
      else if a =? action_into_i32 ACompactingObjectStore then
        ROk (Some (CompactingObjectStore chunk_id))
      else if a =? action_into_i32 ALoadingReadBuffer then
        ROk (Some LoadingReadBuffer)
      else if a =? action_into_i32 ADropping then ROk (Some Dropping)
      else ROk None
  end.

(** [ChunkId::try_from(Bytes)] followed by [.scope("id")]. *)
Definition chunk_id_try_from (b : list Byte.byte) : DResult ChunkId :=
  match from_slice b with
  | Some u => ROk u
  | None => RErr (mkFieldViolation "id" "Cannot convert bytes to chunk ID")
  end.

(** [OptionalField::required] on the storage: a missing value is a
    required-field violation, a present one is converted and its error
    scoped to the field. *)
Definition required_storage (o : option MChunkStorage) (f : string)
    : DResult ChunkStorage :=
  match o with
  | None => RErr (fv_required f)
  | Some m => res_map_err (fv_scope f) (storage_try_from m)
  end.

(** [OptionalField::required] on the lifecycle action. *)
Definition required_lifecycle (o : option MChunkLifecycleAction) (f : string)
    : DResult (option ChunkLifecycleAction) :=
  match o with
  | None => RErr (fv_required f)
  | Some m => res_map_err (fv_scope f) (lifecycle_try_from m)
  end.

(** [FromOptionalField::unwrap_field] *)
Definition unwrap_field {A} (o : option A) (f : string) : DResult A :=
  match o with
  | None => RErr (fv_required f)
  | Some a => ROk a
  end.

(** The [convert_timestamp], [timestamp] and [required_timestamp]
    closures of [ChunkSummary::try_from]. *)
Definition convert_timestamp (t : Timestamp) (f : string) : DResult Time :=
  match datetime_try_from t with
  | RErr _ => RErr (mkFieldViolation f "Timestamp must be positive")
  | RPanic m => RPanic m
  | ROk date_time => ROk date_time
  end.

Definition timestamp (o : option Timestamp) (f : string) : DResult (option Time) :=
  match o with
  | None => ROk None
  | Some t => res_map Some (convert_timestamp t f)
  end.

Definition required_timestamp (o : option Timestamp) (f : string) : DResult Time :=
  let? t := unwrap_field o f in convert_timestamp t f.

(** [impl TryFrom<management::Chunk> for ChunkSummary]: the fields of the
    struct expression are evaluated in the order written. *)
Definition chunk_summary_try_from (p : MChunk) : DResult ChunkSummary :=
  let? cid := chunk_id_try_from (m_id p) in
  let? st := required_storage (storage_from_i32 (m_storage p)) "storage" in
  let? la := required_lifecycle (m_lifecycle_action p) "lifecycle_action" in
  let? tla := timestamp (m_time_of_last_access p) "time_of_last_access" in
  let? tfw := required_timestamp (m_time_of_first_write p) "time_of_first_write" in
  let? tlw := required_timestamp (m_time_of_last_write p) "time_of_last_write" in
  let? o := unwrap_field (ChunkMetadata.new (m_order p)) "order" in
  ROk (mkChunkSummary
         (m_partition_key p) (m_table_name p) o cid st la
         (u64_as_usize (m_memory_bytes p))
         (u64_as_usize (m_object_store_bytes p))
         (u64_as_usize (m_row_count p))
         tla tfw tlw).

(** The id [ChunkId::new_test(42)] of the source's tests. *)
Definition test_uuid_42 : Uuid :=
  mkUuid Byte.x00 Byte.x00 Byte.x00 Byte.x00 Byte.x00 Byte.x00 Byte.x00 Byte.x00
         Byte.x00 Byte.x00 Byte.x00 Byte.x00 Byte.x00 Byte.x00 Byte.x00 Byte.x2a.

(** A summary with every field set, its lifecycle action
    [CompactingObjectStore], written a nanosecond before the epoch and last
    written during a leap second. *)
Definition sample_summary : ChunkSummary :=
  mkChunkSummary "foo" "bar" (mkChunkOrder 5) test_uuid_42 ObjectStoreOnly
    (Some (CompactingObjectStore test_uuid_42)) 10 20 30
    (Some (mkTime 7 0)) (mkTime (-1) 999999999) (mkTime 2 1500000000).

(** What the Rust types of a [ChunkSummary] guarantee: the [usize] counts
    fit in 64 bits, the order is a [NonZeroU32] and the times are chrono
    values. *)
Definition summary_wf (s : ChunkSummary) : Prop :=
  0 <= memory_bytes s < 2 ^ 64 /\ 0 <= object_store_bytes s < 2 ^ 64 /\
  0 <= row_count s < 2 ^ 64 /\ 1 <= get (order s) <= u32_MAX /\
  time_valid (time_of_first_write s) = true /\
  time_valid (time_of_last_write s) = true /\
  (forall t, time_of_last_access s = Some t -> time_valid t = true).

(** How the decoding of one field of a message ends. *)
Inductive Check : Type := Valid | Invalid | Panics.

(** A timestamp: negative nanoseconds are an error, nanoseconds or seconds
    chrono cannot represent a panic. *)
Definition timestamp_check (t : Timestamp) : Check :=
  if nanos t <? 0 then Invalid
  else match from_timestamp_opt (seconds t) (nanos t) with
       | Some _ => Valid
       | None => Panics
       end.

(** Each field [ChunkSummary::try_from] converts, in the order it converts
    them, with the way its conversion ends. *)
Definition field_checks (p : MChunk) : list (string * Check) :=
  [("id"%string, if (length (m_id p) =? 16)%nat then Valid else Invalid);
   ("storage"%string, match storage_from_i32 (m_storage p) with
               | None | Some MUnspecified => Invalid
               | Some _ => Valid
               end);
   ("lifecycle_action"%string, match m_lifecycle_action p with
                        | None => Invalid
                        | Some a => if (length (target_chunk_id a) =? 16)%nat
                                    then Valid else Panics
                        end);
   ("time_of_last_access"%string, match m_time_of_last_access p with
                           | None => Valid
                           | Some t => timestamp_check t
                           end);
   ("time_of_first_write"%string, match m_time_of_first_write p with
                           | None => Invalid
                           | Some t => timestamp_check t
                           end);
   ("time_of_last_write"%string, match m_time_of_last_write p with
                          | None => Invalid
                          | Some t => timestamp_check t
                          end);
   ("order"%string, if m_order p =? 0 then Invalid else Valid)].

(** The first field whose conversion does not succeed. *)
Fixpoint first_failure (l : list (string * Check)) : option (string * Check) :=
  match l with
  | [] => None
  | (f, Valid) :: rest => first_failure rest
  | fc :: _ => Some fc
  end.

End Wire.

(** ** read_buffer/src/chunk.rs *)
Module ReadBuffer.

Section ColumnValues.

(** The table of the chunk, the predicate type and the table's error type;
    [Table::column_values] is the table's own scan over its row groups. *)
Context {Table Predicate TableError : Type}.

(** [BTreeMap<String, BTreeSet<String>>] *)
Definition ColumnValueMap := list (string * list string).

Variable table_column_values :
  Table -> Predicate -> list string -> ColumnValueMap -> Res TableError ColumnValueMap.

(** [schema::selection::Selection] *)
Inductive Selection : Type :=
| All
| Some_ (cols : list string).

(** [read_buffer::chunk::Error] *)
Inductive Error : Type :=
| UnsupportedOperation (msg : string)
| TableErr (source : TableError)
| TableSchemaError
| TableNotFound (table_name : string)
| ColumnDoesNotExist (column_name table_name : string).

(** [read_buffer::Chunk]; its metrics play no part in [column_values]. *)
Record Chunk : Type := mkChunk { table : Table }.

(** [Chunk::column_values] *)
Definition column_values (c : Chunk) (predicate : Predicate)
    (columns : Selection) (dst : ColumnValueMap) : Res Error ColumnValueMap :=
  match columns with
  | All => RErr (UnsupportedOperation "column_values does not support All columns")
  | Some_ cols =>
      res_map_err TableErr (table_column_values (table c) predicate cols dst)
  end.

End ColumnValues.

Section TableSchema.

(** The chunk's table, its error type, and the schema types of the [schema]
    crate: a column's schema entry and the built [Schema]. *)
Context {Table TableError ColumnSchema Schema SchemaError : Type}.

(** What [read_filter_table_schema] reads of the table's metadata
    (read_buffer/src/table.rs, not among the sources): the table name,
    [has_column], [schema_for_all_columns] and [schema_for_column_names];
    and [Schema::try_from(&ResultSchema)] of the [schema] crate. *)
Variable table_name : Table -> string.
Variable has_column : Table -> string -> bool.
Variable schema_for_all_columns : Table -> list ColumnSchema.
Variable schema_for_column_names : Table -> list string -> list ColumnSchema.
Variable schema_try_from : list ColumnSchema -> Res SchemaError Schema.

(** The validation loop of [read_filter_table_schema]: the first selected
    column the table does not have is reported. *)
Fixpoint validate_columns (t : Table) (cols : list string)
    : Res (Error (TableError := TableError)) unit :=
  match cols with
  | [] => ROk tt
  | column_name :: rest =>
      if has_column t column_name then validate_columns t rest
      else RErr (ColumnDoesNotExist column_name (table_name t))
  end.

(** [Chunk::read_filter_table_schema] *)
Definition read_filter_table_schema (c : Chunk (Table := Table)) (columns : Selection)
    : Res (Error (TableError := TableError)) Schema :=
  let t := table c in
  let? _ := match columns with
            | Some_ cols => validate_columns t cols
            | All => ROk tt
            end in
  res_map_err (fun _ => TableSchemaError)
    (schema_try_from
       match columns with
       | All => schema_for_all_columns t
       | Some_ column_names => schema_for_column_names t column_names
       end).

End TableSchema.


End ReadBuffer.

(** ** server/src/db/catalog.rs *)
Module Catalog.

(** A [hashbrown::HashMap] keyed by strings, as the list of its entries in
    iteration order.  Iteration follows the buckets, and the bucket of a
    key is given by the map's hasher ([bucket] below), which is seeded at
    random for each map. *)
Definition HashMap (V : Type) := list (string * V).

Fixpoint hm_get {V} (k : string) (m : HashMap V) : option V :=
  match m with
  | [] => None
  | (k', v) :: rest => if String.eqb k k' then Some v else hm_get k rest
  end.

Definition hm_keys {V} (m : HashMap V) : list string := map fst m.
Definition hm_values {V} (m : HashMap V) : list V := map snd m.

(** Insertion of a key that is not yet present: the entry lands at its
    bucket. *)
Fixpoint hm_insert_new {V} (bucket : string -> Z) (k : string) (v : V)
    (m : HashMap V) : HashMap V :=
  match m with
  | [] => [(k, v)]
  | (k', v') :: rest =>
      if bucket k <? bucket k' then (k, v) :: m
      else (k', v') :: hm_insert_new bucket k v rest
  end.

Section Listings.

(** [CatalogChunk], abstract: the listings only apply a map to it. *)
Context {CatalogChunk : Type}.

(** Modelled from the spec: [Partition] (catalog/partition.rs, not among
    the sources), as the chunks [Partition::chunks] yields, in order. *)
Record Partition : Type := mkPartition { chunks : list CatalogChunk }.

(** Modelled from the spec: [Table] (catalog/table.rs, not among the
    sources), as its map partition_key -> Partition. *)
Record Table : Type := mkTable { partitions : HashMap Partition }.

Record Catalog : Type := mkCatalog {
  db_name : string;
  tables : HashMap Table
}.

(** [Catalog::new] *)
Definition new (db : string) : Catalog := mkCatalog db [].

(** [Catalog::get_or_create_table]: [raw_entry_mut().from_key(..)
    .or_insert_with(..)] adds a fresh [Table::new] when the name is
    absent. *)
Definition get_or_create_table (bucket : string -> Z) (table_name : string)
    (c : Catalog) : Catalog :=
  match hm_get table_name (tables c) with
  | Some _ => c
  | None =>
      mkCatalog (db_name c) (hm_insert_new bucket table_name (mkTable []) (tables c))
  end.

(** [TableNameFilter]; [NamedTables] holds a [BTreeSet<String>], iterated
    in ascending order, given here as that sorted list. *)
Inductive TableNameFilter : Type :=
| AllTables
| NamedTables (names : list string).

Definition option_iter {A} (o : option A) : list A :=
  match o with Some a => [a] | None => [] end.

(** [Catalog::filtered_chunks] *)
Definition filtered_chunks {C} (table_names : TableNameFilter)
    (partition_key : option string) (f : CatalogChunk -> C) (c : Catalog)
    : list C :=
  let ts := match table_names with
            | AllTables => hm_values (tables c)
            | NamedTables named =>
                flat_map (fun n => option_iter (hm_get n (tables c))) named
            end in
  let ps := flat_map (fun t => match partition_key with
                               | Some k => option_iter (hm_get k (partitions t))
                               | None => hm_values (partitions t)
                               end) ts in
  flat_map (fun p => map f (chunks p)) ps.

(** [Catalog::chunk_summaries]; [summary] is [CatalogChunk::summary]. *)
Definition chunk_summaries {S} (summary : CatalogChunk -> S) (c : Catalog)
    : list S :=
  filtered_chunks AllTables None summary c.

(** [Catalog::partition_summaries]: [Table::partition_summaries]
    (catalog/table.rs, not among the sources) is left abstract, as
    [table_partition_summaries]. *)
Definition partition_summaries {PS} (table_partition_summaries : Table -> list PS)
    (c : Catalog) : list PS :=
  flat_map table_partition_summaries (hm_values (tables c)).

(** [Catalog::table_names] *)
Definition table_names (c : Catalog) : list string := hm_keys (tables c).

(** The chunks of one table, over all its partitions. *)
Definition table_chunks (t : Table) : list CatalogChunk :=
  flat_map chunks (hm_values (partitions t)).

(** A catalog after [get_or_create_table] of each name in turn. *)
Definition create_tables (bucket : string -> Z) (names : list string)
    (c : Catalog) : Catalog :=
  fold_left (fun c n => get_or_create_table bucket n c) names c.

(** [catalog::Error] *)
Inductive Error : Type :=
| TableNotFound (table : string)
| PartitionNotFound (partition table : string)
| ChunkNotFound (chunk_id : ChunkMetadata.ChunkId) (partition table : string).

(** [Catalog::table] *)
Definition table (table_name : string) (c : Catalog) : Res Error Table :=
  match hm_get table_name (tables c) with
  | Some t => ROk t
  | None => RErr (TableNotFound table_name)
  end.

(** Modelled from the spec: [Table::partition] (catalog/table.rs, not among
    the sources), the lookup in the table's partition_key -> Partition
    map. *)
Definition table_partition (partition_key : string) (t : Table) : option Partition :=
  hm_get partition_key (partitions t).

(** [Catalog::partition] *)
Definition partition (table_name partition_key : string) (c : Catalog)
    : Res Error Partition :=
  let? t := table table_name c in
  match table_partition partition_key t with
  | Some p => ROk p
  | None => RErr (PartitionNotFound partition_key table_name)
  end.

(** Modelled from the spec: [Table::partition_keys] (catalog/table.rs, not
    among the sources), the keys of the table's partition map. *)
Definition table_partition_keys (t : Table) : list string :=
  hm_keys (partitions t).

(** [HashSet::get_or_insert_with] on a set of strings, as the list of its
    elements: the key is added when it is absent.  Only membership of this
    list is used, not its order. *)
Definition hs_get_or_insert (k : string) (set : list string) : list string :=
  if existsb (String.eqb k) set then set else set ++ [k].

(** [Catalog::partition_keys] *)
Definition partition_keys (c : Catalog) : list string :=
  fold_left
    (fun set t =>
       fold_left (fun set k => hs_get_or_insert k set) (table_partition_keys t) set)
    (hm_values (tables c)) [].

(** [Catalog::chunks]: the chunks of every partition of every table, in
    the iteration order of the maps. *)
Definition all_chunks (c : Catalog) : list CatalogChunk :=
  fold_left
    (fun acc t =>
       fold_left (fun acc p => acc ++ chunks p) (hm_values (partitions t)) acc)
    (hm_values (tables c)) [].

End Listings.


End Catalog.

(** ** influxdb_iox/src/influxdb_ioxd/http/write.rs *)
Module HttpWrite.

Inductive Method : Type := GET | POST | PUT | DELETE | OtherMethod.

Definition method_eqb (a b : Method) : bool :=
  match a, b with
  | GET, GET | POST, POST | PUT, PUT | DELETE, DELETE
  | OtherMethod, OtherMethod => true
  | _, _ => false
  end.

(** The parts of a [Request<Body>] the route reads. *)
Record Request : Type := mkRequest {
  method : Method;
  path : string;
  query : option string;
  body : list Byte.byte
}.

Definition NO_CONTENT : Z := 204.

(** [RequestOrResponse]; a response is described by its status code (its
    body is empty on every path of the route). *)
Inductive RequestOrResponse : Type :=
| RRequest (r : Request)
| RResponse (status : Z).

(** [WriteInfo]: the query string [org=..&bucket=..]. *)
Record WriteInfo : Type := mkWriteInfo { org : string; bucket : string }.

(** [mutable_batch_lp::Error], as far as the route tells the variants
    apart. *)
Inductive LpError : Type :=
| EmptyPayload
| OtherLpError (msg : string).

(** [InnerWriteError] *)
Inductive InnerWriteError : Type :=
| NotFound (db_name : string)
| OtherError (msg : string).

(** [HttpWriteError] *)
Inductive HttpWriteError : Type :=
| BucketMappingError
| WritingPoints (org bucket_name : string)
| ExpectedQueryString
| InvalidQueryString (query_string : string)
| ReadingBodyAsUtf8
| ParsingLineProtocol (source : LpError)
| DatabaseNotFound (db_name : string)
| ParseBody.

(** The kind of [HttpApiError] an error is turned into
    ([HttpApiErrorSource::to_http_api_error]); a [ParseBody] error keeps
    the one of its source. *)
Inductive ApiErrorKind : Type :=
| Invalid
| NotFoundKind
| InternalError
| OfParseBodySource.

Definition to_http_api_error (e : HttpWriteError) : ApiErrorKind :=
  match e with
  | BucketMappingError => InternalError
  | WritingPoints _ _ => InternalError
  | ExpectedQueryString => Invalid
  | InvalidQueryString _ => Invalid
  | ReadingBodyAsUtf8 => Invalid
  | ParsingLineProtocol _ => Invalid
  | DatabaseNotFound _ => NotFoundKind
  | ParseBody => OfParseBodySource
  end.

(** Modelled from the spec: [org_and_bucket_to_database]
    (data_types/src/names.rs, not among the sources): "database name =
    <O>_<B>". *)
Definition org_and_bucket_to_database (o b : string) : Res unit string :=
  ROk (o ++ "_" ++ b)%string.

Section Route.

(** The server ([HttpDrivenWrite]) and its state, which holds the
    databases and the line protocol metrics. *)
Variable ServerState : Type.
Variable max_request_size : ServerState -> Z.
Variable Batches Stats : Type.
(** [HttpDrivenWrite::write] *)
Variable write : ServerState -> string -> Batches -> Res InnerWriteError unit * ServerState.
(** [LineProtocolMetrics::record_write] *)
Variable record_write : ServerState -> string -> Stats -> nat -> bool -> ServerState.

(** The collaborators the route calls: [serde_urlencoded::from_str],
    [parse_body], [std::str::from_utf8] and
    [mutable_batch_lp::lines_to_batches_stats]; [now] is
    [Utc::now().timestamp_nanos()]. *)
Variable urlencoded_from_str : string -> option WriteInfo.
Variable parse_body : Request -> Z -> option (list Byte.byte).
Variable from_utf8 : list Byte.byte -> option string.
Variable lines_to_batches_stats : string -> Z -> (Batches * Stats) + LpError.
Variable now : Z.

(** [HttpDrivenWrite::route_write_http_request] *)
Definition route_write_http_request (srv : ServerState) (req : Request)
    : Res HttpWriteError RequestOrResponse * ServerState :=
  if negb (method_eqb (method req) POST)
     || negb (String.eqb (path req) "/api/v2/write")
  then (ROk (RRequest req), srv)
  else
  let max := max_request_size srv in
  match query req with
  | None => (RErr ExpectedQueryString, srv)
  | Some q =>
  match urlencoded_from_str q with
  | None => (RErr (InvalidQueryString q), srv)
  | Some write_info =>
  match org_and_bucket_to_database (org write_info) (bucket write_info) with
  | ROk db_name =>
  match parse_body req max with
  | None => (RErr ParseBody, srv)
  | Some body_bytes =>
  match from_utf8 body_bytes with
  | None => (RErr ReadingBodyAsUtf8, srv)
  | Some body =>
  match lines_to_batches_stats body now with
  | inr EmptyPayload => (ROk (RResponse NO_CONTENT), srv)
  | inr source => (RErr (ParsingLineProtocol source), srv)
  | inl (tables, stats) =>
      match write srv db_name tables with
      | (ROk _, srv') =>
          (ROk (RResponse NO_CONTENT),
           record_write srv' db_name stats (length body_bytes) true)
      | (RErr (NotFound _), srv') => (RErr (DatabaseNotFound db_name), srv')
      | (RErr (OtherError _), srv') =>
          (RErr (WritingPoints (org write_info) (bucket write_info)),
           record_write srv' db_name stats (length body_bytes) false)
      | (RPanic m, srv') => (RPanic m, srv')
      end
  end
  end
  end
  | RErr _ => (RErr BucketMappingError, srv)
  | RPanic m => (RPanic m, srv)
  end
  end
  end.

End Route.

(** A server whose state counts the writes, with a body parser that
    returns the body and a line protocol parser that yields [lp]. *)
Definition counting_route (write : nat -> string -> unit -> Res InnerWriteError unit * nat)
    (lp : (unit * unit) + LpError) :=
  route_write_http_request nat (fun _ => 1024%Z) unit unit write
    (fun s _ _ _ _ => S s)
    (fun _ => Some (mkWriteInfo "MyOrg" "MyBucket"))
    (fun r _ => Some (body r)) (fun _ => Some "cpu v=1"%string)
    (fun _ _ => lp) 0.

End HttpWrite.

(** ** server/src/db/system_tables/columns.rs *)
Module SystemColumns.
Import ChunkMetadata.

(** *** The parts of arrow the system tables use *)

Inductive DataType : Type := Utf8 | UInt64.

Definition data_type_eqb (a b : DataType) : bool :=
  match a, b with
  | Utf8, Utf8 | UInt64, UInt64 => true
  | _, _ => false
  end.

(** [Field::new(name, data_type, nullable)] *)
Record Field : Type := mkField {
  field_name : string;
  data_type : DataType;
  nullable : bool
}.

Definition Schema := list Field.

(** An [ArrayRef] holding a [StringArray] or a [UInt64Array]; [None] is a
    null slot. *)
Inductive ArrayRef : Type :=
| StringArray (values : list (option string))
| UInt64Array (values : list (option Z)).

Definition array_len (a : ArrayRef) : nat :=
  match a with
  | StringArray v => length v
  | UInt64Array v => length v
  end.

Definition array_data_type (a : ArrayRef) : DataType :=
  match a with
  | StringArray _ => Utf8
  | UInt64Array _ => UInt64
  end.

Inductive ArrowError : Type :=
| InvalidArgumentError (msg : string).

Record RecordBatch : Type := mkRecordBatch {
  rb_schema : Schema;
  rb_columns : list ArrayRef
}.

(** [RecordBatch::try_new] (arrow, not among the sources): there must be
    at least one column, as many columns as fields, each of its field's
    type, and all of the same length. *)
Definition try_new (schema : Schema) (columns : list ArrayRef)
    : Res ArrowError RecordBatch :=
  match columns with
  | [] => RErr (InvalidArgumentError "at least one column must be defined")
  | c0 :: _ =>
      if negb (Nat.eqb (length schema) (length columns)) then
        RErr (InvalidArgumentError "number of columns must match number of fields")
      else if negb (forallb (fun '(f, c) => data_type_eqb (data_type f) (array_data_type c))
                      (combine schema columns)) then
        RErr (InvalidArgumentError "column types must match schema types")
      else if negb (forallb (fun c => Nat.eqb (array_len c) (array_len c0)) columns) then
        RErr (InvalidArgumentError "all columns in a record batch must have the same length")
      else ROk (mkRecordBatch schema columns)
  end.

(** [StringBuilder::append_value] and [append_null]; appending to a string
    builder never fails, so the [?] after each call never returns. *)
Definition append_value (b : list (option string)) (v : string) : list (option string) :=
  b ++ [Some v].
Definition append_null (b : list (option string)) : list (option string) :=
  b ++ [None].

Section Tables.

(** The column statistics and the InfluxDB column type of
    data_types/src/partition_metadata.rs (not among the sources), and the
    accessors the system tables call on them: [ColumnSummary::type_name],
    [InfluxDbType::as_str], [total_count], [null_count],
    [Statistics::min_as_str] and [max_as_str]; [uuid_to_string] is the
    [Display] of [Uuid]. *)
Context {Statistics InfluxDbType : Type}.

(** [partition_metadata::ColumnSummary] *)
Record ColumnSummary : Type := mkColumnSummary {
  cs_name : string;
  cs_influxdb_type : option InfluxDbType;
  cs_stats : Statistics
}.

(** [partition_metadata::TableSummary] *)
Record TableSummary : Type := mkTableSummary {
  ts_name : string;
  ts_columns : list ColumnSummary
}.

(** [partition_metadata::PartitionSummary] *)
Record PartitionSummary : Type := mkPartitionSummary {
  ps_key : string;
  ps_table : TableSummary
}.

Variable type_name : ColumnSummary -> string.
Variable influxdb_type_as_str : InfluxDbType -> string.
Variable total_count : ColumnSummary -> Z.
Variable null_count : ColumnSummary -> Z.
Variable min_as_str : Statistics -> option string.
Variable max_as_str : Statistics -> option string.
Variable uuid_to_string : Uuid -> string.

(** [partition_summaries_schema] *)
Definition partition_summaries_schema : Schema :=
  [mkField "partition_key" Utf8 false;
   mkField "table_name" Utf8 false;
   mkField "column_name" Utf8 false;
   mkField "column_type" Utf8 false;
   mkField "influxdb_type" Utf8 true].

(** The five string builders of [from_partition_summaries]. *)
Record Builders : Type := mkBuilders {
  b_partition_key : list (option string);
  b_table_name : list (option string);
  b_column_name : list (option string);
  b_column_type : list (option string);
  b_influxdb_type : list (option string)
}.

(** The body of the inner loop of [from_partition_summaries]. *)
Definition append_column (partition : PartitionSummary) (b : Builders)
    (column : ColumnSummary) : Builders :=
  let table := ps_table partition in
  mkBuilders
    (append_value (b_partition_key b) (ps_key partition))
    (append_value (b_table_name b) (ts_name table))
    (append_value (b_column_name b) (cs_name column))
    (append_value (b_column_type b) (type_name column))
    (match cs_influxdb_type column with
     | Some t => append_value (b_influxdb_type b) (influxdb_type_as_str t)
     | None => append_null (b_influxdb_type b)
     end).

(** [from_partition_summaries] *)
Definition from_partition_summaries (schema : Schema)
    (partitions : list PartitionSummary) : Res ArrowError RecordBatch :=
  let b := fold_left
             (fun b partition =>
                fold_left (append_column partition) (ts_columns (ps_table partition)) b)
             partitions (mkBuilders [] [] [] [] []) in
  try_new schema
    [StringArray (b_partition_key b); StringArray (b_table_name b);
     StringArray (b_column_name b); StringArray (b_column_type b);
     StringArray (b_influxdb_type b)].

(** [chunk_columns_schema] *)
Definition chunk_columns_schema : Schema :=
  [mkField "partition_key" Utf8 false;
   mkField "chunk_id" Utf8 false;
   mkField "table_name" Utf8 false;
   mkField "column_name" Utf8 false;
   mkField "storage" Utf8 false;
   mkField "row_count" UInt64 true;
   mkField "null_count" UInt64 true;
   mkField "min_value" Utf8 true;
   mkField "max_value" Utf8 true;
   mkField "memory_bytes" UInt64 true].

(** A [HashMap<&str, u64>] as an association list; lookups and removals
    do not depend on the order of its entries. *)
Definition StrMap (V : Type) := list (string * V).

(** [HashMap::insert]: a present key gets the new value. *)
Fixpoint sm_insert {V} (k : string) (v : V) (m : StrMap V) : StrMap V :=
  match m with
  | [] => [(k, v)]
  | (k', v') :: rest =>
      if String.eqb k k' then (k, v) :: rest else (k', v') :: sm_insert k v rest
  end.

(** [Iterator::collect::<HashMap<_, _>>]: the entries are inserted in turn. *)
Definition sm_from_iter {V} (l : list (string * V)) : StrMap V :=
  fold_left (fun m '(k, v) => sm_insert k v m) l [].

(** [HashMap::remove] *)
Fixpoint sm_remove {V} (k : string) (m : StrMap V) : option V * StrMap V :=
  match m with
  | [] => (None, [])
  | (k', v') :: rest =>
      if String.eqb k k' then (Some v', rest)
      else let (o, rest') := sm_remove k rest in (o, (k', v') :: rest')
  end.

(** The [map(move |column_summary| column_sizes.remove(..))] over the
    columns of a table summary, run in order on the one map. *)
Fixpoint remove_each {V} (names : list string) (m : StrMap V) : list (option V) :=
  match names with
  | [] => []
  | n :: rest => let (o, m') := sm_remove n m in o :: remove_each rest m'
  end.

(** The [memory_bytes] cells of one (table summary, chunk summary) pair in
    [assemble_chunk_columns]. *)
Definition column_memory_bytes (ts : TableSummary) (cs : DetailedChunkSummary)
    : list (option Z) :=
  let column_sizes :=
    sm_from_iter (map (fun c => (ccs_name c, Wire.usize_as_u64 (ccs_memory_bytes c)))
                      (columns cs)) in
  remove_each (map cs_name (ts_columns ts)) column_sizes.

(** [assemble_chunk_columns]; the [EachColumn] rows pair a chunk summary
    with each column of its table summary. *)
Definition assemble_chunk_columns (schema : Schema)
    (chunk_summaries : list (TableSummary * DetailedChunkSummary))
    : Res ArrowError RecordBatch :=
  let rows := flat_map (fun '(ts, cs) => map (fun col => (cs, col)) (ts_columns ts))
                chunk_summaries in
  let partition_key := map (fun '(cs, _) => Some (partition_key (inner cs))) rows in
  let chunk_id := map (fun '(cs, _) => Some (uuid_to_string (id (inner cs)))) rows in
  let table_name := map (fun '(cs, _) => Some (table_name (inner cs))) rows in
  let column_name := map (fun '(_, col) => Some (cs_name col)) rows in
  let storage := map (fun '(cs, _) => Some (as_str (storage (inner cs)))) rows in
  let row_count := map (fun '(_, col) => Some (total_count col)) rows in
  let null_count := map (fun '(_, col) => Some (null_count col)) rows in
  let min_values := map (fun '(_, col) => min_as_str (cs_stats col)) rows in
  let max_values := map (fun '(_, col) => max_as_str (cs_stats col)) rows in
  let memory_bytes := flat_map (fun '(ts, cs) => column_memory_bytes ts cs)
                        chunk_summaries in
  try_new schema
    [StringArray partition_key; StringArray chunk_id; StringArray table_name;
     StringArray column_name; StringArray storage; UInt64Array row_count;
     UInt64Array null_count; StringArray min_values; StringArray max_values;
     UInt64Array memory_bytes].

(** The memory bytes (as [u64]) of the last entry named [n] of a detailed
    summary's columns: the value a [HashMap] collected from them holds. *)
Definition last_memory_bytes (n : string) (l : list ChunkColumnSummary) : option Z :=
  fold_left (fun acc c => if String.eqb (ccs_name c) n
                          then Some (Wire.usize_as_u64 (ccs_memory_bytes c)) else acc)
    l None.

End Tables.

End SystemColumns.

(** * Properties *)

(** ** The catalog chunk state machine *)
Module LifecycleFacts.
Import CatalogChunk.

Ltac destruct_chunk c :=
  let pk := fresh "pk" in let i := fresh "i" in let st := fresh "st" in
  let f := fresh "f" in let l := fresh "l" in let tc := fresh "tc" in
  destruct c as [pk i st f l tc].

Section Facts.
Context {MB RB PQ : Type}.
Implicit Types (c : @Chunk MB RB PQ) (t : @Transition RB PQ).

(** Claim C1 (as amended): when a lifecycle transition ([set_closing],
    [set_moving], [set_moved], [set_writing_to_object_store],
    [set_written_to_object_store]) is called on a chunk whose state it does
    not accept, it returns an [InternalChunkState] error carrying the
    partition key, the chunk id, the operation name, the expected state
    names and the name of the current state, and leaves the chunk exactly
    as it was.  [set_closing] and [set_moving] accept Open and Closing,
    [set_moved] Moving, [set_writing_to_object_store] Moved and
    [set_written_to_object_store] WritingToObjectStore. *)
Theorem transition_rejected_keeps_chunk t c :
  accepts t (state c) = false ->
  transition t c =
    (RErr (mkInternalChunkState (partition_key c) (id c)
             (operation_of t) (expected_of t) (name (state c))), c).
Proof.
  destruct_chunk c; destruct t; destruct st; simpl; intro H;
    try discriminate H; reflexivity.
Qed.

(** An operation that returns leaves a chunk in a real state. *)
Lemma run_op_keeps_state_valid (o : @Op MB RB PQ) c :
  state c <> Invalid ->
  is_panic (fst (run_op o c)) = false ->
  state (snd (run_op o c)) <> Invalid.
Proof.
  destruct_chunk c; destruct o as [t | now | g]; [destruct t | | ];
    destruct st; try destruct tc; simpl; intros Hst Hp;
    solve [ discriminate | congruence ].
Qed.

(** Claim C3: no chunk an observer can reach (created in a real state and
    changed only by operations that returned [Ok] or [Err]) is in the
    [Invalid] state, so no accessor ever sees it. *)
Theorem reachable_state_not_invalid c :
  reachable c -> state c <> Invalid.
Proof.
  induction 1 as [pk cid s Hs | c o Hc IH Hp].
  - exact Hs.
  - exact (run_op_keeps_state_valid o c IH Hp).
Qed.

(** On a reachable chunk the Open state comes with [time_closing] unset:
    no operation returns a chunk to Open, and none but [set_closing]
    writes [time_closing]. *)
Lemma reachable_open_time_closing_unset c mb :
  reachable c -> state c = Open mb -> time_closing c = None.
Proof.
  intros H; revert mb; induction H as [pk cid s Hs | c o Hc IH Hp].
  - reflexivity.
  - intro mb; destruct_chunk c; simpl in IH.
    destruct o as [t | now | g]; [destruct t | | ]; destruct st;
      try destruct tc; simpl; intro Heq; try discriminate Heq;
      first [ reflexivity | exact (IH _ eq_refl) | discriminate Hp ].
Qed.

(** Claim C4 (as amended): [set_closing] accepts Open and Closing.  From
    either, when [time_closing] is unset (as it always is for Open on a
    reachable chunk), it succeeds, installs Closing with the same buffer
    and stamps [time_closing] with the current time.  From any other state
    it fails with [InternalChunkState] and leaves the chunk, its state and
    its [time_closing] unchanged. *)
Theorem set_closing_behaviour (now : DateTime) c :
  (forall mb, state c = Open mb \/ state c = Closing mb ->
     time_closing c = None ->
     set_closing now c =
       (ROk tt, mkChunk (partition_key c) (id c) (Closing mb)
                  (time_of_first_write c) (time_of_last_write c) (Some now))) /\
  (forall mb, reachable c -> state c = Open mb -> time_closing c = None) /\
  (accepts (TSetClosing now) (state c) = false ->
     set_closing now c =
       (RErr (mkInternalChunkState (partition_key c) (id c)
                "setting closing" "Open or Closing" (name (state c))), c)).
Proof.
  split; [ | split].
  - intros mb [Hs | Hs] Ht; destruct_chunk c; simpl in *; subst; reflexivity.
  - intros mb; apply reachable_open_time_closing_unset.
  - intro H; exact (transition_rejected_keeps_chunk (TSetClosing now) c H).
Qed.

End Facts.

(** Counterexample to claim C1 as stated: Closing is not a legal source of
    [set_closing] in the transition table, yet [set_closing] on a Closing
    chunk does not answer with [InternalChunkState]: a chunk created
    Closing is closed again with [Ok], and a chunk closed by [set_closing]
    makes the second call panic with the state left [Invalid]. *)
Lemma set_closing_on_closing_not_rejected :
  let c := @new unit unit unit "p" 1 (Closing tt) in
  spec_table_legal (TSetClosing 5) (state c) = false /\
  transition (TSetClosing 5) c = (ROk tt, mkChunk "p" 1 (Closing tt) None None (Some 5)) /\
  let c1 := snd (set_closing 5 (@new_open unit unit unit "p" 1 tt)) in
  spec_table_legal (TSetClosing 6) (state c1) = false /\
  transition (TSetClosing 6) c1 =
    (RPanic "assertion failed: self.time_closing.is_none()",
     mkChunk "p" 1 Invalid None None (Some 5)).
Proof. vm_compute. repeat split. Qed.

(** Counterexample to claim C4 as stated: [set_closing] also succeeds from
    Closing (a chunk created in that state), so success is not limited to
    Open; and from a chunk already closed by [set_closing] it neither
    succeeds nor returns [InternalChunkState]. *)
Lemma set_closing_succeeds_from_closing :
  fst (set_closing 7 (@new unit unit unit "p" 1 (Closing tt))) = ROk tt /\
  is_panic (fst (set_closing 8
     (snd (set_closing 7 (@new_open unit unit unit "p" 1 tt))))) = true.
Proof. vm_compute. split; reflexivity. Qed.

Lemma reachable_state_not_invalid_witness :
  let c := snd (run_op (OpTransition (TSetClosing 5))
                  (@new unit unit unit "p" 1 (Open tt))) in
  reachable c /\ state c <> Invalid.
Proof.
  intro c.
  assert (H : reachable c).
  { apply reachable_op; [apply reachable_new; discriminate | reflexivity]. }
  split; [exact H | exact (reachable_state_not_invalid c H)].
Defined.

Lemma transition_rejected_keeps_chunk_witness :
  let c := @new unit unit unit "p" 3 (Moved tt) in
  accepts TSetMoving (state c) = false /\
  transition TSetMoving c =
    (RErr (mkInternalChunkState "p" 3 "setting moving" "Open or Closing" "Moved"), c).
Proof.
  intro c. split; [reflexivity | ].
  exact (transition_rejected_keeps_chunk TSetMoving c eq_refl).
Defined.

Lemma set_closing_behaviour_witness :
  let c := @new unit unit unit "p" 1 (Open tt) in
  set_closing 9 c = (ROk tt, mkChunk "p" 1 (Closing tt) None None (Some 9)) /\
  time_closing c = None /\
  set_closing 9 (@new unit unit unit "p" 1 (Moving tt)) =
    (RErr (mkInternalChunkState "p" 1 "setting closing" "Open or Closing" "Moving"),
     @new unit unit unit "p" 1 (Moving tt)).
Proof.
  intro c.
  destruct (set_closing_behaviour 9 c) as [H1 [H2 _]].
  destruct (set_closing_behaviour 9 (@new unit unit unit "p" 1 (Moving tt)))
    as [_ [_ H3]].
  split; [ | split].
  - exact (H1 tt (or_introl eq_refl) eq_refl).
  - exact (H2 tt (reachable_new "p" 1 (Open tt) ltac:(discriminate)) eq_refl).
  - exact (H3 eq_refl).
Defined.

End LifecycleFacts.

(** ** ChunkOrder *)
Module ChunkOrderFacts.
Import ChunkMetadata.

(** Claim C7: [ChunkOrder::new(0)] is [None] and [ChunkOrder::new(n)] is
    [Some] of value [n] for every u32 [n >= 1]; [MIN] has value 1 and [MAX]
    value [2^32 - 1]; [next] panics on [MAX] and returns the order plus one
    below it. *)
Theorem chunk_order_bounds (n : Z) (o : ChunkOrder) :
  1 <= n <= u32_MAX -> 1 <= get o < u32_MAX ->
  new 0 = None /\
  option_map get (new n) = Some n /\
  get MIN = 1 /\ get MAX = 2 ^ 32 - 1 /\
  is_panic (next MAX) = true /\
  next o = ROk (mkChunkOrder (get o + 1)).
Proof.
  intros Hn Ho. unfold u32_MAX in *.
  repeat split.
  - unfold new, NonZeroU32_new.
    destruct (Z.eqb_spec n 0); [lia | reflexivity].
  - unfold next, checked_add_u32, NonZeroU32_new, u32_MAX.
    destruct (Z.leb_spec (get o + 1) (2 ^ 32 - 1)); [ | lia].
    destruct (Z.eqb_spec (get o + 1) 0); [lia | reflexivity].
Qed.

Lemma chunk_order_bounds_witness :
  (1 <= 7 <= u32_MAX /\ 1 <= get (mkChunkOrder 41) < u32_MAX) /\
  option_map get (new 7) = Some 7 /\ next (mkChunkOrder 41) = ROk (mkChunkOrder 42).
Proof.
  assert (H : 1 <= 7 <= u32_MAX /\ 1 <= get (mkChunkOrder 41) < u32_MAX)
    by (unfold u32_MAX; simpl; lia).
  destruct H as [H1 H2].
  destruct (chunk_order_bounds 7 (mkChunkOrder 41) H1 H2)
    as [_ [Hnew [_ [_ [_ Hnext]]]]].
  split; [split; assumption | split; [exact Hnew | exact Hnext]].
Defined.

End ChunkOrderFacts.

(** ** Read buffer [column_values] *)
Module ReadBufferFacts.
Import ReadBuffer.

(** Claim C8: [column_values] with [Selection::All] returns the
    [UnsupportedOperation] error whatever the chunk, predicate and
    accumulator, and whatever the table's own scan does (the table is not
    consulted: two different scans give the same answer); with
    [Selection::Some(cols)] the call is the table's [column_values] on the
    same arguments, its error wrapped as [TableError]. *)
Theorem column_values_all_unsupported {Table Predicate TableError : Type}
    (scan1 scan2 : Table -> Predicate -> list string -> ColumnValueMap ->
                   Res TableError ColumnValueMap)
    (c : @Chunk Table) (pred : Predicate) (cols : list string)
    (dst : ColumnValueMap) :
  column_values scan1 c pred All dst =
    RErr (UnsupportedOperation "column_values does not support All columns") /\
  column_values scan1 c pred All dst = column_values scan2 c pred All dst /\
  column_values scan1 c pred (Some_ cols) dst =
    res_map_err TableErr (scan1 (table c) pred cols dst).
Proof. repeat split. Qed.

End ReadBufferFacts.

(** ** Wire conversion of chunk summaries *)
Module WireFacts.
Import ChunkMetadata Wire.

Lemma from_slice_as_bytes u : from_slice (as_bytes u) = Some u.
Proof. destruct u; reflexivity. Qed.

Lemma from_slice_wrong_length l : length l <> 16%nat -> from_slice l = None.
Proof.
  intro H.
  do 16 (destruct l as [|? l]; [reflexivity | ]).
  destruct l; [simpl in H; congruence | reflexivity].
Qed.

Lemma from_slice_length l : length l = 16%nat -> exists u, from_slice l = Some u.
Proof.
  intro H.
  do 16 (destruct l as [|? l]; [discriminate H | ]).
  destruct l; [eexists; reflexivity | discriminate H].
Qed.

Lemma lifecycle_try_from_ok a :
  length (target_chunk_id a) = 16%nat ->
  exists v, lifecycle_try_from a = ROk v.
Proof.
  intro H; destruct (from_slice_length _ H) as [u Hu].
  unfold lifecycle_try_from; rewrite Hu.
  repeat match goal with |- context [if ?b then _ else _] => destruct b end;
    eexists; reflexivity.
Qed.

Lemma from_timestamp_opt_some secs ns d :
  from_timestamp_opt secs ns = Some d -> d = mkTime secs ns /\ ns < 2000000000.
Proof.
  unfold from_timestamp_opt, from_num_seconds_from_midnight_ok.
  destruct (_ && _) eqn:E; [ | discriminate].
  intro H; injection H as <-.
  apply andb_true_iff in E as [_ E]. apply andb_true_iff in E as [_ E].
  apply Z.ltb_lt in E. split; [reflexivity | exact E].
Qed.

Lemma time_roundtrip (t : Time) (f : string) :
  time_valid t = true -> convert_timestamp (timestamp_of_time t) f = ROk t.
Proof.
  destruct t as [sec ns]. unfold time_valid; cbn [time_secs time_nanos].
  intro Hv. apply andb_true_iff in Hv as [Hn Hv].
  apply Z.leb_le in Hn.
  destruct (from_timestamp_opt sec ns) as [d | ] eqn:Hd; [ | discriminate Hv].
  destruct (from_timestamp_opt_some _ _ _ Hd) as [-> Hlt].
  assert (Hc : u32_as_i32 ns = ns).
  { unfold u32_as_i32. destruct (Z.ltb_spec ns (2 ^ 31)); lia. }
  unfold convert_timestamp, datetime_try_from, timestamp_of_time;
    cbn [seconds nanos time_secs time_nanos]. rewrite Hc.
  destruct (Z.ltb_spec ns 0); [lia | ].
  rewrite Hd. reflexivity.
Qed.

Lemma storage_roundtrip (st : ChunkStorage) (f : string) :
  required_storage (storage_from_i32 (storage_into_i32 (storage_to_proto st))) f
  = ROk st.
Proof. destruct st; reflexivity. Qed.

Lemma lifecycle_roundtrip (r : Uuid) (la : option ChunkLifecycleAction) (f : string) :
  required_lifecycle (Some (lifecycle_to_proto r la)) f = ROk la.
Proof.
  destruct r; destruct la as [[ | | [] | | ] | ]; reflexivity.
Qed.

Lemma usize_u64_roundtrip x : 0 <= x < 2 ^ 64 -> u64_as_usize (usize_as_u64 x) = x.
Proof.
  intro H; unfold u64_as_usize, usize_as_u64.
  rewrite (Z.mod_small x) by lia. apply Z.mod_small; lia.
Qed.

(** Encoding a well-formed summary and decoding the message gives the
    summary back, whatever its lifecycle action and filler id. *)
Lemma summary_roundtrip (random_uuid : Uuid) (s : ChunkSummary) :
  summary_wf s ->
  chunk_summary_try_from (chunk_to_proto random_uuid s) = ROk s.
Proof.
  destruct s as [pk tn o cid st la mb ob rc tla tfw tlw].
  intros (Hmb & Hob & Hrc & Ho & Htfw & Htlw & Htla).
  cbn [memory_bytes object_store_bytes row_count order get time_of_first_write
       time_of_last_write time_of_last_access] in *.
  unfold chunk_summary_try_from, chunk_to_proto, chunk_id_try_from.
  cbn [m_id m_storage m_lifecycle_action m_time_of_last_access
       m_time_of_first_write m_time_of_last_write m_order m_partition_key
       m_table_name m_memory_bytes m_object_store_bytes m_row_count
       partition_key table_name order id storage lifecycle_action memory_bytes
       object_store_bytes row_count time_of_last_access time_of_first_write
       time_of_last_write].
  rewrite from_slice_as_bytes; cbn [res_bind].
  rewrite storage_roundtrip; cbn [res_bind].
  rewrite lifecycle_roundtrip; cbn [res_bind].
  assert (Hla : timestamp (option_map timestamp_of_time tla) "time_of_last_access"
                = ROk tla).
  { destruct tla as [t | ]; [ | reflexivity].
    cbn [option_map timestamp].
    rewrite time_roundtrip by (apply Htla; reflexivity). reflexivity. }
  rewrite Hla; cbn [res_bind].
  unfold required_timestamp; cbn [unwrap_field res_bind].
  rewrite (time_roundtrip tfw) by exact Htfw; cbn [res_bind].
  rewrite (time_roundtrip tlw) by exact Htlw; cbn [res_bind].
  destruct o as [ov]; cbn [get] in *.
  unfold ChunkMetadata.new, NonZeroU32_new.
  destruct (Z.eqb_spec ov 0); [lia | ]. cbn [option_map unwrap_field res_bind].
  rewrite !usize_u64_roundtrip by assumption.
  reflexivity.
Qed.

(** Claim C2: a chunk summary whose lifecycle action is not
    [CompactingObjectStore] is decoded from its encoding unchanged,
    whatever filler id the encoder draws; every field (partition key,
    table name, id, storage, lifecycle action, byte and row counts,
    timestamps, order) survives.  The summary is any value of the Rust
    type ([summary_wf]): its times are any chrono times, before the epoch
    and leap seconds included. *)
Theorem chunk_summary_roundtrip (random_uuid : Uuid) (s : ChunkSummary) :
  summary_wf s ->
  (forall t, lifecycle_action s <> Some (CompactingObjectStore t)) ->
  chunk_summary_try_from (chunk_to_proto random_uuid s) = ROk s.
Proof.
  intros Hwf _. exact (summary_roundtrip random_uuid s Hwf).
Qed.

Lemma chunk_summary_roundtrip_witness :
  let s := mkChunkSummary "foo" "bar" (mkChunkOrder 5) test_uuid_42 ObjectStoreOnly
             (Some Compacting) 1234 567 321 (Some (mkTime 50 7))
             (mkTime (-1) 999999999) (mkTime 756 1000000023) in
  summary_wf s /\
  (forall t, lifecycle_action s <> Some (CompactingObjectStore t)) /\
  chunk_summary_try_from (chunk_to_proto test_uuid_42 s) = ROk s.
Proof.
  intro s.
  assert (Hw : summary_wf s).
  { unfold summary_wf, u32_MAX; cbn [memory_bytes object_store_bytes row_count
      order get time_of_first_write time_of_last_write time_of_last_access s].
    split; [lia | split; [lia | split; [lia | split; [lia | ]]]].
    split; [reflexivity | split; [reflexivity | ]].
    intros t Ht; injection Ht as <-; reflexivity. }
  assert (Hl : forall t, lifecycle_action s <> Some (CompactingObjectStore t))
    by (intros t; discriminate).
  split; [exact Hw | split; [exact Hl | ]].
  exact (chunk_summary_roundtrip test_uuid_42 s Hw Hl).
Defined.

End WireFacts.

Module WireDecodeFacts.
Import ChunkMetadata Wire WireFacts.

(** Claim C6 fails on the program: the decoder accepts a negative
    [time_of_first_write] of [-3] seconds and returns a summary written
    three seconds before the epoch, although the error it reports for a
    timestamp reads "Timestamp must be positive"; only negative
    nanoseconds are rejected, by the [i32] to [u32] conversion of
    pbjson_types. *)
Lemma negative_seconds_timestamp_accepted :
  let p := mkMChunk "foo" "bar" (as_bytes test_uuid_42) 5
             (Some (mkMChunkLifecycleAction 2 (as_bytes test_uuid_42)))
             1234 567 321 None (Some (mkTimestamp (-3) 0))
             (Some (mkTimestamp 3 0)) 5 in
  let p' := mkMChunk "foo" "bar" (as_bytes test_uuid_42) 5
             (Some (mkMChunkLifecycleAction 2 (as_bytes test_uuid_42)))
             1234 567 321 None (Some (mkTimestamp 3 (-1)))
             (Some (mkTimestamp 3 0)) 5 in
  chunk_summary_try_from p =
    ROk (mkChunkSummary "foo" "bar" (mkChunkOrder 5) test_uuid_42 ObjectStoreOnly
           (Some Compacting) 1234 567 321 None (mkTime (-3) 0) (mkTime 3 0)) /\
  chunk_summary_try_from p' =
    RErr (mkFieldViolation "time_of_first_write" "Timestamp must be positive").
Proof. vm_compute. split; reflexivity. Qed.

(** Claim C10: whatever its action tag, a wire lifecycle action whose
    [target_chunk_id] is not exactly sixteen bytes makes the decoding
    panic instead of returning a [FieldViolation]. *)
Theorem lifecycle_bad_target_panics (a : Z) (target : list Byte.byte) :
  length target <> 16%nat ->
  is_panic (lifecycle_try_from (mkMChunkLifecycleAction a target)) = true.
Proof.
  intro H. unfold lifecycle_try_from; cbn [target_chunk_id].
  rewrite (from_slice_wrong_length _ H). reflexivity.
Qed.

Lemma lifecycle_bad_target_panics_witness :
  length (@nil Byte.byte) <> 16%nat /\
  is_panic (lifecycle_try_from (mkMChunkLifecycleAction
              (action_into_i32 APersisting) [])) = true.
Proof.
  assert (H : length (@nil Byte.byte) <> 16%nat) by discriminate.
  split; [exact H | exact (lifecycle_bad_target_panics _ [] H)].
Defined.

End WireDecodeFacts.

(** ** Catalog listings *)
Module CatalogFacts.
Import Catalog.

Section Facts.
Context {CatalogChunk : Type}.

Lemma hm_keys_insert_new {V} bucket k (v : V) m :
  forall n, In n (hm_keys (hm_insert_new bucket k v m)) <-> n = k \/ In n (hm_keys m).
Proof.
  induction m as [ | [k' v'] rest IH]; intro n; cbn [hm_insert_new hm_keys map fst].
  - simpl; intuition congruence.
  - destruct (bucket k <? bucket k'); cbn [map fst In].
    + intuition congruence.
    + specialize (IH n). unfold hm_keys in IH. rewrite IH. intuition congruence.
Qed.

Lemma hm_get_none {V} k (m : HashMap V) : hm_get k m = None <-> ~ In k (hm_keys m).
Proof.
  induction m as [ | [k' v'] rest IH]; cbn [hm_get hm_keys map fst In].
  - tauto.
  - destruct (String.eqb_spec k k') as [-> | Hne].
    + split; [discriminate | intro H; exfalso; apply H; left; reflexivity].
    + unfold hm_keys in IH. rewrite IH. split; intros H H'; apply H;
        [destruct H' as [H' | H']; [congruence | exact H'] | right; exact H'].
Qed.

Lemma hm_insert_new_nodup {V} bucket k (v : V) m :
  ~ In k (hm_keys m) -> NoDup (hm_keys m) -> NoDup (hm_keys (hm_insert_new bucket k v m)).
Proof.
  induction m as [ | [k' v'] rest IH]; intros Hk Hnd; cbn [hm_insert_new].
  - constructor; [intros [] | constructor].
  - destruct (bucket k <? bucket k').
    + constructor; [exact Hk | exact Hnd].
    + cbn [hm_keys map fst] in *. inversion Hnd as [ | ? ? Hk' Hnd']; subst.
      constructor.
      * intro Hin. apply (proj1 (hm_keys_insert_new bucket k v rest k')) in Hin.
        destruct Hin as [-> | Hin]; [apply Hk; left; reflexivity | exact (Hk' Hin)].
      * apply IH; [intro H; apply Hk; right; exact H | exact Hnd'].
Qed.

Lemma create_tables_spec bucket names (c : @Catalog CatalogChunk) :
  NoDup (table_names c) ->
  NoDup (table_names (create_tables bucket names c)) /\
  (forall n, In n (table_names (create_tables bucket names c)) <->
             In n names \/ In n (table_names c)).
Proof.
  revert c; induction names as [ | n0 names IH]; intros c Hnd.
  - split; [exact Hnd | intro n; simpl; tauto].
  - cbn [create_tables fold_left].
    fold (create_tables bucket names (get_or_create_table bucket n0 c)).
    assert (Hstep : NoDup (table_names (get_or_create_table bucket n0 c)) /\
      (forall n, In n (table_names (get_or_create_table bucket n0 c)) <->
                 n = n0 \/ In n (table_names c))).
    { unfold get_or_create_table, table_names.
      destruct (hm_get n0 (tables c)) eqn:Hg.
      - split; [exact Hnd | intro n; split; [tauto | ]].
        intros [-> | H]; [ | exact H].
        destruct (in_dec String.string_dec n0 (hm_keys (tables c)))
          as [Hin | Hnin]; [exact Hin | ].
        apply hm_get_none in Hnin. congruence.
      - cbn [tables]. apply hm_get_none in Hg.
        split; [apply hm_insert_new_nodup; assumption | ].
        intro n; apply hm_keys_insert_new. }
    destruct Hstep as [Hnd1 Hin1].
    destruct (IH _ Hnd1) as [Hnd2 Hin2].
    split; [exact Hnd2 | intro n; rewrite Hin2, Hin1; simpl; intuition congruence].
Qed.

Lemma map_flat_map {A B C} (f : B -> C) (g : A -> list B) l :
  map f (flat_map g l) = flat_map (fun x => map f (g x)) l.
Proof.
  induction l as [ | x l IH]; [reflexivity | ].
  cbn [flat_map]. rewrite map_app, IH. reflexivity.
Qed.

Lemma flat_map_flat_map {A B C} (g : B -> list C) (h : A -> list B) l :
  flat_map g (flat_map h l) = flat_map (fun x => flat_map g (h x)) l.
Proof.
  induction l as [ | x l IH]; [reflexivity | ].
  cbn [flat_map]. rewrite flat_map_app, IH. reflexivity.
Qed.

(** A listing that goes over the values of a map with unique keys goes
    over its keys in order, looking each one up. *)
Lemma flat_map_values_by_keys {V X} (g : V -> list X) (m : HashMap V) :
  NoDup (hm_keys m) ->
  flat_map g (hm_values m) =
    flat_map (fun n => match hm_get n m with Some t => g t | None => [] end) (hm_keys m).
Proof.
  unfold hm_values, hm_keys.
  induction m as [ | [k t] rest IH]; intro Hnd; [reflexivity | ].
  cbn [map fst snd] in *.
  inversion Hnd as [ | ? ? Hk Hnd']; subst.
  cbn [flat_map hm_get]. rewrite String.eqb_refl.
  f_equal.
  rewrite (IH Hnd').
  rewrite !flat_map_concat_map. f_equal.
  apply map_ext_in. intros n Hn.
  destruct (String.eqb_spec n k) as [-> | _]; [contradiction | reflexivity].
Qed.

(** Claim C5 (as amended): [table_names()] lists every table of the
    catalog exactly once, in the iteration order of the catalog's hash map,
    and [chunk_summaries()] and [partition_summaries()] list the chunks
    and the partition summaries table by table in that same order.  All
    three are fixed by the current map state, but the order is the map's
    bucket order, not the order of the names. *)
Theorem listings_follow_map_order {S PS} (summary : CatalogChunk -> S)
    (table_partition_summaries : @Table CatalogChunk -> list PS)
    (bucket : string -> Z) (names : list string) (db : string)
    (c : @Catalog CatalogChunk) :
  (NoDup (table_names (create_tables bucket names (@new CatalogChunk db))) /\
   forall n, In n (table_names (create_tables bucket names (@new CatalogChunk db))) <-> In n names) /\
  (NoDup (table_names c) ->
   chunk_summaries summary c =
     flat_map (fun n => match hm_get n (tables c) with
                        | Some t => map summary (table_chunks t)
                        | None => []
                        end) (table_names c) /\
   partition_summaries table_partition_summaries c =
     flat_map (fun n => match hm_get n (tables c) with
                        | Some t => table_partition_summaries t
                        | None => []
                        end) (table_names c)).
Proof.
  split.
  - destruct (create_tables_spec bucket names (@new CatalogChunk db) (NoDup_nil _))
      as [H1 H2].
    split; [exact H1 | intro n; rewrite H2; simpl; tauto].
  - intro Hnd. split.
    + unfold chunk_summaries, filtered_chunks.
      rewrite flat_map_flat_map.
      rewrite (flat_map_ext _ (fun t => map summary (table_chunks t)))
        by (intro t; unfold table_chunks; rewrite map_flat_map; reflexivity).
      exact (flat_map_values_by_keys _ (tables c) Hnd).
    + exact (flat_map_values_by_keys _ (tables c) Hnd).
Qed.

End Facts.

Local Open Scope string_scope.

Lemma listings_follow_map_order_witness :
  let c := mkCatalog "db" [("cpu", mkTable [("p1", mkPartition [1%nat; 2%nat])]);
                           ("mem", mkTable [("p1", mkPartition [3%nat])])] in
  NoDup (table_names c) /\ chunk_summaries (fun n => n) c = [1%nat; 2%nat; 3%nat] /\
  partition_summaries (fun t => hm_keys (partitions t)) c = ["p1"; "p1"].
Proof.
  intro c.
  assert (Hnd : NoDup (table_names c)).
  { repeat constructor; simpl; intuition discriminate. }
  split; [exact Hnd | ].
  destruct (proj2 (listings_follow_map_order (fun n : nat => n)
                    (fun t => hm_keys (partitions t)) (fun _ => 0) [] "db" c) Hnd)
    as [H1 H2].
  rewrite H1, H2. split; reflexivity.
Defined.

(** Counterexample to claim C5 as stated: with a hasher that places "b"
    before "a", a catalog holding tables "a" and "b" lists them as
    ["b"; "a"], not sorted; with another hasher the same tables come out
    as ["a"; "b"], so the sequence is not a function of the set of
    tables. *)
Lemma table_names_not_sorted :
  let h1 := fun s => if String.eqb s "a" then 1 else 0 in
  let h2 := fun s => if String.eqb s "a" then 0 else 1 in
  table_names (create_tables h1 ["a"; "b"]%string (@new unit "db")) = ["b"; "a"]%string /\
  table_names (create_tables h2 ["a"; "b"]%string (@new unit "db")) = ["a"; "b"]%string.
Proof. vm_compute. split; reflexivity. Qed.

End CatalogFacts.

(** ** HTTP write route *)
Module HttpWriteFacts.
Import HttpWrite.

(** Claim C9: a [POST] to [/api/v2/write] whose query string names an org
    and a bucket and whose body parses to the empty line protocol payload
    is answered [204 No Content] with the server state untouched, whatever
    the server's [write] would do (so it is never called); a [POST] to the
    same path without a query string fails with [ExpectedQueryString], an
    "invalid" error. *)
Theorem empty_payload_no_write
    {ServerState Batches Stats : Type}
    (max_request_size : ServerState -> Z)
    (write : ServerState -> string -> Batches -> Res InnerWriteError unit * ServerState)
    (record_write : ServerState -> string -> Stats -> nat -> bool -> ServerState)
    (urlencoded_from_str : string -> option WriteInfo)
    (parse_body : Request -> Z -> option (list Byte.byte))
    (from_utf8 : list Byte.byte -> option string)
    (lines_to_batches_stats : string -> Z -> (Batches * Stats) + LpError)
    (now : Z) (srv : ServerState) (req : Request)
    (q : string) (wi : WriteInfo) (bytes : list Byte.byte) (text : string) :
  method req = POST -> path req = "/api/v2/write"%string ->
  (query req = None ->
   route_write_http_request ServerState max_request_size Batches Stats write
     record_write urlencoded_from_str parse_body from_utf8
     lines_to_batches_stats now srv req = (RErr ExpectedQueryString, srv) /\
   to_http_api_error ExpectedQueryString = Invalid) /\
  (query req = Some q ->
   urlencoded_from_str q = Some wi ->
   parse_body req (max_request_size srv) = Some bytes ->
   from_utf8 bytes = Some text ->
   lines_to_batches_stats text now = inr EmptyPayload ->
   route_write_http_request ServerState max_request_size Batches Stats write
     record_write urlencoded_from_str parse_body from_utf8
     lines_to_batches_stats now srv req = (ROk (RResponse NO_CONTENT), srv)).
Proof.
  intros Hm Hp.
  unfold route_write_http_request. rewrite Hm, Hp. cbn [method_eqb negb orb].
  rewrite String.eqb_refl. cbn [negb orb].
  split.
  - intro Hq; rewrite Hq; split; reflexivity.
  - intros Hq Hwi Hb Hu Hl.
    rewrite Hq, Hwi. cbn [org_and_bucket_to_database].
    rewrite Hb, Hu, Hl. reflexivity.
Qed.

Local Open Scope string_scope.

Lemma empty_payload_no_write_witness :
  let req := mkRequest POST "/api/v2/write" (Some "org=MyOrg&bucket=MyBucket") [] in
  route_write_http_request nat (fun _ => 1024%Z) unit unit
    (fun s _ _ => (ROk tt, S s)) (fun s _ _ _ _ => S s)
    (fun _ => Some (mkWriteInfo "MyOrg" "MyBucket"))
    (fun r _ => Some (body r)) (fun _ => Some ""%string)
    (fun _ _ => inr EmptyPayload) 0 7%nat req = (ROk (RResponse NO_CONTENT), 7%nat).
Proof.
  intro req.
  refine (proj2 (empty_payload_no_write (fun _ => 1024%Z)
    (fun s _ _ => (ROk tt, S s)) (fun s _ _ _ _ => S s)
    (fun _ => Some (mkWriteInfo "MyOrg" "MyBucket"))
    (fun r _ => Some (body r)) (fun _ => Some ""%string)
    (fun _ _ => inr EmptyPayload) 0 7%nat req
    "org=MyOrg&bucket=MyBucket" (mkWriteInfo "MyOrg" "MyBucket") [] ""
    eq_refl eq_refl) eq_refl eq_refl eq_refl eq_refl eq_refl).
Defined.

End HttpWriteFacts.

(** ** Chunk metadata: ids, storage names and summary comparison *)
Module ChunkMetadataFacts.
Import ChunkMetadata.

(** [ChunkId] to bytes and back: converting a chunk id to [Bytes] and the
    bytes back with [ChunkId::try_from] gives the same id; any byte string
    that is not sixteen bytes long is rejected with [CannotConvertBytes]
    reporting its length; and every id the conversion accepts turns back
    into exactly the bytes it came from. *)
Theorem chunk_id_bytes_roundtrip :
  (forall cid, chunk_id_try_from_bytes (chunk_id_into_bytes cid) = ROk cid) /\
  (forall b, length b <> 16%nat ->
     chunk_id_try_from_bytes b = RErr (CannotConvertBytes (length b))) /\
  (forall b cid, chunk_id_try_from_bytes b = ROk cid -> chunk_id_into_bytes cid = b).
Proof.
  split; [ | split].
  - intro cid; destruct cid; reflexivity.
  - intros b Hb. unfold chunk_id_try_from_bytes.
    rewrite (WireFacts.from_slice_wrong_length b Hb). reflexivity.
  - intros b cid. unfold chunk_id_try_from_bytes, chunk_id_into_bytes.
    destruct (from_slice b) as [u | ] eqn:Hb; [ | discriminate].
    intro H; injection H as <-.
    do 16 (destruct b as [|? b]; [discriminate Hb | ]).
    destruct b; [ | discriminate Hb].
    injection Hb as <-. reflexivity.
Qed.

(** [ChunkStorage::as_str] gives each storage its own name, so the
    [storage] column of [system.chunk_columns] tells them apart. *)
Theorem as_str_injective (a b : ChunkStorage) : as_str a = as_str b -> a = b.
Proof. destruct a, b; simpl; intro H; solve [reflexivity | discriminate H]. Qed.

Lemma chunk_id_bytes_roundtrip_witness :
  length [Byte.x00] <> 16%nat /\
  chunk_id_try_from_bytes [Byte.x00] = RErr (CannotConvertBytes 1%nat) /\
  chunk_id_try_from_bytes (chunk_id_into_bytes Wire.test_uuid_42) = ROk Wire.test_uuid_42 /\
  chunk_id_into_bytes Wire.test_uuid_42 = as_bytes Wire.test_uuid_42.
Proof.
  destruct chunk_id_bytes_roundtrip as (H1 & H2 & H3).
  assert (Hl : length [Byte.x00] <> 16%nat) by discriminate.
  pose proof (H1 Wire.test_uuid_42) as Hok.
  split; [exact Hl | split; [exact (H2 _ Hl) | split; [exact Hok | ]]].
  exact (H3 _ _ Hok).
Defined.

Lemma as_str_injective_witness :
  as_str ReadBuffer = as_str ReadBuffer /\ ReadBuffer = ReadBuffer.
Proof.
  assert (H : as_str ReadBuffer = as_str ReadBuffer) by reflexivity.
  split; [exact H | exact (as_str_injective _ _ H)].
Defined.

End ChunkMetadataFacts.

(** ** Wire conversion: more of the decoder *)
Module WireExtraFacts.
Import ChunkMetadata Wire WireFacts.

Lemma from_slice_inv l u : from_slice l = Some u -> as_bytes u = l.
Proof.
  intro Hl.
  do 16 (destruct l as [|? l]; [discriminate Hl | ]).
  destruct l; [ | discriminate Hl].
  injection Hl as <-. reflexivity.
Qed.

(** What a timestamp's conversion does, by [timestamp_check]. *)
Lemma convert_timestamp_check (t : Timestamp) (f : string) :
  match timestamp_check t with
  | Valid => exists d, convert_timestamp t f = ROk d
  | Invalid => convert_timestamp t f = RErr (mkFieldViolation f "Timestamp must be positive")
  | Panics => is_panic (convert_timestamp t f) = true
  end.
Proof.
  unfold timestamp_check, convert_timestamp, datetime_try_from.
  destruct (nanos t <? 0); [reflexivity | ].
  destruct (from_timestamp_opt (seconds t) (nanos t)); [eexists; reflexivity | reflexivity].
Qed.

(** A converted timestamp is a chrono time that encodes back to it. *)
Lemma convert_timestamp_ok (t : Timestamp) (f : string) (d : Time) :
  convert_timestamp t f = ROk d ->
  time_valid d = true /\ timestamp_of_time d = t.
Proof.
  destruct t as [sec ns].
  unfold convert_timestamp, datetime_try_from; cbn [seconds nanos].
  destruct (Z.ltb_spec ns 0) as [_ | Hn]; [discriminate | ].
  destruct (from_timestamp_opt sec ns) as [d' | ] eqn:Hd; [ | discriminate].
  intro H; injection H as <-.
  destruct (from_timestamp_opt_some _ _ _ Hd) as [-> Hlt].
  split.
  - unfold time_valid; cbn [time_secs time_nanos]. rewrite Hd.
    destruct (Z.leb_spec 0 ns); [reflexivity | lia].
  - unfold timestamp_of_time, u32_as_i32; cbn [time_secs time_nanos].
    destruct (Z.ltb_spec ns (2 ^ 31)); [reflexivity | lia].
Qed.

Lemma u64_as_usize_range x : 0 <= u64_as_usize x < 2 ^ 64.
Proof. unfold u64_as_usize. apply Z.mod_pos_bound. lia. Qed.

Ltac bind_ok H :=
  match type of H with
  | res_bind ?r _ = ROk _ =>
      let E := fresh "E" in
      destruct r eqn:E; cbn [res_bind] in H; [ | discriminate H | discriminate H]
  end.

Ltac known_code Ha :=
  exfalso; subst; apply Ha;
  repeat (first [left; reflexivity | right]).

Ltac ts_step t f :=
  let C := fresh "C" in
  pose proof (convert_timestamp_check t f) as C;
  destruct (timestamp_check t);
  [ let d := fresh "d" in destruct C as [d C]; rewrite C; cbn [first_failure res_map res_bind]
  | rewrite C; cbn [first_failure res_map res_bind]; eexists; reflexivity
  | cbn [first_failure]; destruct (convert_timestamp t f);
    cbn [is_panic] in C; try discriminate C; reflexivity ].

(** Lifecycle actions on the wire: every lifecycle action (or none) comes
    back from its encoding, whatever filler id the encoder draws, including
    [CompactingObjectStore] with its target chunk id; and a wire action
    with a sixteen byte target whose action code is none of the five known
    codes (the [Unspecified] code [0] included) is decoded as "no action",
    not as an error. *)
Theorem lifecycle_action_decoding :
  (forall (random_uuid : Uuid) (la : option ChunkLifecycleAction),
     lifecycle_try_from (lifecycle_to_proto random_uuid la) = ROk la) /\
  (forall (a : Z) (target : list Byte.byte),
     length target = 16%nat ->
     ~ In a (map action_into_i32
               [APersisting; ACompacting; ACompactingObjectStore; ADropping;
                ALoadingReadBuffer]) ->
     lifecycle_try_from (mkMChunkLifecycleAction a target) = ROk None).
Proof.
  split.
  - intros r la. destruct r; destruct la as [[ | | [] | | ] | ]; reflexivity.
  - intros a target Hlen Ha. cbn [map In action_into_i32] in Ha.
    destruct (from_slice_length _ Hlen) as [u Hu].
    unfold lifecycle_try_from; cbn [target_chunk_id action]; rewrite Hu.
    cbn [action_into_i32].
    destruct (Z.eqb_spec a 1); [known_code Ha | ].
    destruct (Z.eqb_spec a 2); [known_code Ha | ].
    destruct (Z.eqb_spec a 3); [known_code Ha | ].
    destruct (Z.eqb_spec a 5); [known_code Ha | ].
    destruct (Z.eqb_spec a 4); [known_code Ha | ].
    reflexivity.
Qed.

(** Encoding then decoding gives back every chunk summary, whatever its
    lifecycle action, [CompactingObjectStore] included (its target id is
    carried on the wire), whatever filler id the encoder draws, and
    whatever its times (any chrono time: before the epoch, during a leap
    second); the counts are any [usize] and the order any [NonZeroU32]. *)
Theorem encoded_summary_decodes (random_uuid : Uuid) (s : ChunkSummary) :
  summary_wf s ->
  chunk_summary_try_from (chunk_to_proto random_uuid s) = ROk s.
Proof. exact (summary_roundtrip random_uuid s). Qed.

(** How the decoding of a message ends, for every message: the fields are
    converted in order (id, storage, lifecycle_action, time_of_last_access,
    time_of_first_write, time_of_last_write, order), and the first one
    that does not convert decides.  An id that is not sixteen bytes, an
    unknown or [Unspecified] storage, a missing lifecycle action, a missing
    required timestamp, a timestamp with negative nanoseconds or an order
    of zero gives a [FieldViolation] naming that field; a lifecycle target
    id that is not sixteen bytes, or a timestamp chrono cannot represent
    (nanoseconds from 2e9 on, or seconds out of its years), panics; when
    every field converts, the decoding succeeds. *)
Theorem decode_outcome (p : MChunk) :
  match first_failure (field_checks p) with
  | None => exists s, chunk_summary_try_from p = ROk s
  | Some (f, Invalid) => exists d, chunk_summary_try_from p = RErr (mkFieldViolation f d)
  | Some (_, Panics) => is_panic (chunk_summary_try_from p) = true
  | Some (_, Valid) => False
  end.
Proof.
  destruct p as [pk tn idb st la mb ob rc tla tfw tlw ord].
  unfold field_checks, chunk_summary_try_from, chunk_id_try_from.
  cbn [m_id m_storage m_lifecycle_action m_time_of_last_access
       m_time_of_first_write m_time_of_last_write m_order].
  destruct (Nat.eqb_spec (length idb) 16) as [Hid | Hid].
  2: { rewrite (from_slice_wrong_length _ Hid). cbn [first_failure res_bind].
       eexists; reflexivity. }
  destruct (from_slice_length _ Hid) as [u Hu]; rewrite Hu.
  cbn [first_failure res_bind].
  unfold required_storage.
  destruct (storage_from_i32 st) as [[ | | | | | ] | ];
    cbn [first_failure res_bind storage_try_from res_map_err];
    try (eexists; reflexivity).
  all: unfold required_lifecycle.
  all: destruct la as [a | ]; cbn [first_failure res_bind];
    [ | eexists; reflexivity ].
  all: destruct (Nat.eqb_spec (length (target_chunk_id a)) 16) as [Ht | Ht];
    [ destruct (lifecycle_try_from_ok a Ht) as [v Hv]; rewrite Hv;
      cbn [first_failure res_map_err res_bind]
    | cbn [first_failure]; unfold lifecycle_try_from;
      rewrite (from_slice_wrong_length _ Ht); reflexivity ].
  all: unfold timestamp.
  all: destruct tla as [t1 | ]; cbn [first_failure res_bind];
    [ ts_step t1 "time_of_last_access"%string | ].
  all: unfold required_timestamp, unwrap_field.
  all: destruct tfw as [t2 | ]; cbn [first_failure res_bind];
    [ ts_step t2 "time_of_first_write"%string | eexists; reflexivity ].
  all: destruct tlw as [t3 | ]; cbn [first_failure res_bind];
    [ ts_step t3 "time_of_last_write"%string | eexists; reflexivity ].
  all: unfold ChunkMetadata.new, NonZeroU32_new.
  all: destruct (ord =? 0); cbn [first_failure option_map res_bind];
    eexists; reflexivity.
Qed.

(** Every summary the decoder produces is a value of the Rust type
    ([summary_wf]: counts below 2^64, a non-zero order, chrono times), and
    it keeps the message: its order, partition key, table name and id
    bytes are those of the message, and its times encode back to the
    message's timestamps. *)
Theorem decoded_summary_wf (p : MChunk) (s : ChunkSummary) :
  0 <= m_order p <= u32_MAX ->
  chunk_summary_try_from p = ROk s ->
  summary_wf s /\
  get (order s) = m_order p /\
  partition_key s = m_partition_key p /\ table_name s = m_table_name p /\
  as_bytes (id s) = m_id p /\
  option_map timestamp_of_time (time_of_last_access s) = m_time_of_last_access p /\
  Some (timestamp_of_time (time_of_first_write s)) = m_time_of_first_write p /\
  Some (timestamp_of_time (time_of_last_write s)) = m_time_of_last_write p.
Proof.
  destruct p as [pk tn idb st la mb ob rc tla tfw tlw ord].
  unfold chunk_summary_try_from; cbn [m_id m_storage m_lifecycle_action
    m_time_of_last_access m_time_of_first_write m_time_of_last_write m_order
    m_partition_key m_table_name m_memory_bytes m_object_store_bytes m_row_count].
  intros Hrange H.
  bind_ok H. bind_ok H. bind_ok H. bind_ok H. bind_ok H. bind_ok H. bind_ok H.
  injection H as <-.
  cbn [memory_bytes object_store_bytes row_count order partition_key table_name id
       time_of_first_write time_of_last_write time_of_last_access].
  rename E into Eid, E0 into Est, E1 into Ela, E2 into Etla, E3 into Etfw,
    E4 into Etlw, E5 into Eord.
  unfold chunk_id_try_from in Eid.
  destruct (from_slice idb) eqn:Hs; [ | discriminate Eid].
  injection Eid as <-.
  unfold unwrap_field, ChunkMetadata.new, NonZeroU32_new in Eord.
  destruct (Z.eqb_spec ord 0) as [ | Hnz]; cbn [option_map] in Eord; [discriminate Eord | ].
  injection Eord as <-.
  unfold required_timestamp, unwrap_field in Etfw, Etlw.
  destruct tfw as [t2 | ]; cbn [res_bind] in Etfw; [ | discriminate Etfw].
  destruct tlw as [t3 | ]; cbn [res_bind] in Etlw; [ | discriminate Etlw].
  destruct (convert_timestamp_ok _ _ _ Etfw) as [Hv2 He2].
  destruct (convert_timestamp_ok _ _ _ Etlw) as [Hv3 He3].
  assert (Hla : (forall t, a2 = Some t -> time_valid t = true) /\
                option_map timestamp_of_time a2 = tla).
  { unfold timestamp in Etla.
    destruct tla as [t1 | ]; [ | injection Etla as <-; split; [discriminate | reflexivity]].
    destruct (convert_timestamp t1 "time_of_last_access") eqn:Ec;
      cbn [res_map] in Etla; try discriminate Etla.
    injection Etla as <-.
    destruct (convert_timestamp_ok _ _ _ Ec) as [Hv1 He1].
    split; [intros t Ht; injection Ht as <-; exact Hv1 | cbn [option_map]; rewrite He1; reflexivity]. }
  destruct Hla as [Hla1 Hla2].
  pose proof (u64_as_usize_range mb). pose proof (u64_as_usize_range ob).
  pose proof (u64_as_usize_range rc).
  unfold summary_wf; cbn [memory_bytes object_store_bytes row_count order get
    time_of_first_write time_of_last_write time_of_last_access].
  assert (Hord : 1 <= ord <= u32_MAX) by lia.
  split; [repeat split; try lia; assumption | ].
  split; [reflexivity | split; [reflexivity | split; [reflexivity | ]]].
  split; [exact (from_slice_inv _ _ Hs) | ].
  split; [exact Hla2 | split; [rewrite He2; reflexivity | rewrite He3; reflexivity]].
Qed.

(** The storage code of a message is accepted exactly when it is one of
    the five codes of a storage ([1] to [5]), and decodes to the storage
    whose code it is; any other code, the [Unspecified] code [0] included,
    is rejected with a violation on the field [storage]. *)
Theorem storage_code_decoding (n : Z) :
  (1 <= n <= 5 ->
   exists st, required_storage (storage_from_i32 n) "storage" = ROk st /\
              storage_into_i32 (storage_to_proto st) = n) /\
  (~ (1 <= n <= 5) ->
   exists d, required_storage (storage_from_i32 n) "storage" =
               RErr (mkFieldViolation "storage" d)).
Proof.
  split.
  - intro Hn. unfold storage_from_i32.
    destruct (Z.eqb_spec n 0); [lia | ].
    destruct (Z.eqb_spec n 1); [subst; eexists; split; reflexivity | ].
    destruct (Z.eqb_spec n 2); [subst; eexists; split; reflexivity | ].
    destruct (Z.eqb_spec n 3); [subst; eexists; split; reflexivity | ].
    destruct (Z.eqb_spec n 4); [subst; eexists; split; reflexivity | ].
    destruct (Z.eqb_spec n 5); [subst; eexists; split; reflexivity | ].
    lia.
  - intro Hn. unfold storage_from_i32.
    destruct (Z.eqb_spec n 0); [eexists; reflexivity | ].
    destruct (Z.eqb_spec n 1); [lia | ].
    destruct (Z.eqb_spec n 2); [lia | ].
    destruct (Z.eqb_spec n 3); [lia | ].
    destruct (Z.eqb_spec n 4); [lia | ].
    destruct (Z.eqb_spec n 5); [lia | ].
    eexists; reflexivity.
Qed.

Lemma lifecycle_action_decoding_witness :
  length (as_bytes test_uuid_42) = 16%nat /\
  ~ In 0 (map action_into_i32
            [APersisting; ACompacting; ACompactingObjectStore; ADropping;
             ALoadingReadBuffer]) /\
  lifecycle_try_from (mkMChunkLifecycleAction 0 (as_bytes test_uuid_42)) = ROk None /\
  lifecycle_try_from (lifecycle_to_proto test_uuid_42 (Some Dropping)) = ROk (Some Dropping).
Proof.
  destruct lifecycle_action_decoding as (H1 & H2).
  assert (Hl : length (as_bytes test_uuid_42) = 16%nat) by reflexivity.
  assert (Hn : ~ In 0 (map action_into_i32
            [APersisting; ACompacting; ACompactingObjectStore; ADropping;
             ALoadingReadBuffer])) by (cbn; lia).
  split; [exact Hl | split; [exact Hn | split; [exact (H2 _ _ Hl Hn) | apply H1]]].
Defined.

Lemma encoded_summary_decodes_witness :
  summary_wf sample_summary /\
  chunk_summary_try_from (chunk_to_proto test_uuid_42 sample_summary) = ROk sample_summary.
Proof.
  assert (Hw : summary_wf sample_summary).
  { unfold summary_wf, u32_MAX; cbn.
    split; [lia | split; [lia | split; [lia | split; [lia | ]]]].
    split; [reflexivity | split; [reflexivity | ]].
    intros t Ht; injection Ht as <-; reflexivity. }
  split; [exact Hw | exact (encoded_summary_decodes test_uuid_42 sample_summary Hw)].
Defined.

Lemma decoded_summary_wf_witness :
  let p := mkMChunk "foo" "bar" (as_bytes test_uuid_42) 5
             (Some (mkMChunkLifecycleAction 2 (as_bytes test_uuid_42)))
             1234 567 321 (Some (mkTimestamp 50 7)) (Some (mkTimestamp (-3) 0))
             (Some (mkTimestamp 3 1500000000)) 5 in
  let s := mkChunkSummary "foo" "bar" (mkChunkOrder 5) test_uuid_42 ObjectStoreOnly
             (Some Compacting) 1234 567 321 (Some (mkTime 50 7)) (mkTime (-3) 0)
             (mkTime 3 1500000000) in
  0 <= m_order p <= u32_MAX /\
  chunk_summary_try_from p = ROk s /\
  summary_wf s /\
  get (order s) = m_order p /\
  partition_key s = m_partition_key p /\ table_name s = m_table_name p /\
  as_bytes (id s) = m_id p /\
  option_map timestamp_of_time (time_of_last_access s) = m_time_of_last_access p /\
  Some (timestamp_of_time (time_of_first_write s)) = m_time_of_first_write p /\
  Some (timestamp_of_time (time_of_last_write s)) = m_time_of_last_write p.
Proof.
  intros p s.
  assert (Hr : 0 <= m_order p <= u32_MAX) by (unfold u32_MAX; cbn; lia).
  assert (H : chunk_summary_try_from p = ROk s) by (vm_compute; reflexivity).
  split; [exact Hr | split; [exact H | exact (decoded_summary_wf p s Hr H)]].
Defined.

Lemma storage_code_decoding_witness :
  1 <= 3 <= 5 /\
  (exists st, required_storage (storage_from_i32 3) "storage" = ROk st /\
              storage_into_i32 (storage_to_proto st) = 3) /\
  ~ (1 <= 0 <= 5) /\
  (exists d, required_storage (storage_from_i32 0) "storage" =
               RErr (mkFieldViolation "storage" d)).
Proof.
  assert (H3 : 1 <= 3 <= 5) by lia.
  assert (H0 : ~ (1 <= 0 <= 5)) by lia.
  split; [exact H3 | split; [exact (proj1 (storage_code_decoding 3) H3) | ]].
  split; [exact H0 | exact (proj2 (storage_code_decoding 0) H0)].
Defined.

End WireExtraFacts.

(** ** Catalog chunks: identity, timestamps and the order of the lifecycle *)
Module LifecycleExtraFacts.
Import CatalogChunk.

Section Facts.
Context {MB RB PQ : Type}.
Implicit Types (c : @Chunk MB RB PQ) (t : @Transition RB PQ) (o : @Op MB RB PQ).

(** No operation on a chunk, whatever its outcome (a panic included),
    changes the chunk's partition key or id. *)
Theorem run_op_keeps_identity o c :
  partition_key (snd (run_op o c)) = partition_key c /\
  id (snd (run_op o c)) = id c.
Proof.
  LifecycleFacts.destruct_chunk c; destruct o as [t | now | g]; [destruct t | | ];
    destruct st; try destruct tc; split; reflexivity.
Qed.

(** Write and closing times: on a reachable chunk, the time of the first
    write is set exactly when the time of the last write is; once set, the
    time of the first write and the closing time are never changed by any
    operation, whatever its outcome; and recording a write sets the time
    of the last write to the current time. *)
Theorem write_times_invariants :
  (forall c, reachable c ->
     (time_of_first_write c = None <-> time_of_last_write c = None)) /\
  (forall o c (t : DateTime), time_of_first_write c = Some t ->
     time_of_first_write (snd (run_op o c)) = Some t) /\
  (forall o c (t : DateTime), time_closing c = Some t ->
     time_closing (snd (run_op o c)) = Some t) /\
  (forall c (now : DateTime), time_of_last_write (record_write now c) = Some now).
Proof.
  split; [ | split; [ | split]].
  - induction 1 as [pk cid s Hs | c o Hc IH Hp].
    + split; reflexivity.
    + LifecycleFacts.destruct_chunk c; cbn [time_of_first_write time_of_last_write] in IH.
      destruct o as [t | now | g]; [destruct t | | ]; destruct st; try destruct tc;
        cbn; try exact IH;
        destruct f; split; intro Hx; discriminate Hx.
  - intros o c t; LifecycleFacts.destruct_chunk c; cbn [time_of_first_write].
    intros ->.
    destruct o as [t' | now | g]; [destruct t' | | ]; destruct st; try destruct tc;
      reflexivity.
  - intros o c t; LifecycleFacts.destruct_chunk c; cbn [time_closing].
    intros ->.
    destruct o as [t' | now | g]; [destruct t' | | ]; destruct st; reflexivity.
  - intros c now; reflexivity.
Qed.

(** A reachable chunk in the Open state goes through the whole lifecycle:
    [set_closing], [set_moving] (which hands back the buffer),
    [set_moved], [set_writing_to_object_store] (which hands back the read
    buffer database) and [set_written_to_object_store] all succeed in that
    order, and the chunk ends written to the object store with the closing
    time stamped and its key, id and write times unchanged. *)
Theorem open_chunk_full_lifecycle c (mb : MB) (now : DateTime) (db : RB) (pq : PQ) :
  reachable c -> state c = Open mb ->
  let c1 := mkChunk (partition_key c) (id c) (Closing mb)
              (time_of_first_write c) (time_of_last_write c) (Some now) in
  let c2 := with_state c1 (Moving mb) in
  let c3 := with_state c1 (Moved db) in
  let c4 := with_state c1 (WritingToObjectStore db) in
  let c5 := with_state c1 (WrittenToObjectStore db pq) in
  set_closing now c = (ROk tt, c1) /\
  set_moving c1 = (ROk mb, c2) /\
  set_moved db c2 = (ROk tt, c3) /\
  set_writing_to_object_store c3 = (ROk db, c4) /\
  set_written_to_object_store pq c4 = (ROk tt, c5).
Proof.
  intros Hr Hs.
  pose proof (LifecycleFacts.reachable_open_time_closing_unset c mb Hr Hs) as Ht.
  LifecycleFacts.destruct_chunk c; cbn in Hs, Ht; subst st tc.
  repeat split.
Qed.

(** Chunks only move forward along Open, Closing, Moving, Moved,
    WritingToObjectStore, WrittenToObjectStore: an operation that returns
    never moves a chunk back, and a transition that succeeds moves it
    strictly forward, except [set_closing] on a Closing chunk, which stays
    Closing with the same buffer. *)
Theorem lifecycle_moves_forward :
  (forall o c, is_panic (fst (run_op o c)) = false ->
     (lifecycle_position (state c) <= lifecycle_position (state (snd (run_op o c))))%nat) /\
  (forall t c, fst (transition t c) = ROk tt ->
     (lifecycle_position (state c) < lifecycle_position (state (snd (transition t c))))%nat \/
     (exists now mb, t = TSetClosing now /\ state c = Closing mb /\
                     state (snd (transition t c)) = Closing mb)).
Proof.
  split.
  - intros o c; LifecycleFacts.destruct_chunk c;
      destruct o as [t | now | g]; [destruct t | | ]; destruct st; try destruct tc;
      cbn; intro Hp; first [ discriminate Hp | lia ].
  - intros t c; LifecycleFacts.destruct_chunk c;
      destruct t; destruct st; try destruct tc; cbn; intro Hp;
      first [ discriminate Hp | left; lia | right; eauto 6 ].
Qed.

End Facts.

Lemma write_times_invariants_witness :
  let c := @new Z Z Z "p" 1 (Open 0) in
  let c' := snd (set_closing 5 (record_write 3 c)) in
  reachable c /\
  (time_of_first_write c = None <-> time_of_last_write c = None) /\
  time_of_first_write (record_write 3 c) = Some 3 /\
  time_of_first_write (snd (run_op (OpRecordWrite 7) (record_write 3 c))) = Some 3 /\
  time_closing c' = Some 5 /\
  time_closing (snd (run_op (OpTransition TSetMoving) c')) = Some 5 /\
  time_of_last_write (record_write 9 c) = Some 9.
Proof.
  intros c c'.
  destruct (@write_times_invariants Z Z Z) as (H1 & H2 & H3 & H4).
  assert (Hr : reachable c) by (apply reachable_new; discriminate).
  split; [exact Hr | ].
  split; [exact (H1 c Hr) | ].
  split; [reflexivity | ].
  split; [apply H2; reflexivity | ].
  split; [reflexivity | ].
  split; [apply H3; reflexivity | ].
  apply H4.
Defined.

Lemma open_chunk_full_lifecycle_witness :
  let c := @new_open Z Z Z "p" 1 0 in
  reachable c /\ state c = Open 0 /\
  let c1 := mkChunk (partition_key c) (id c) (Closing 0)
              (time_of_first_write c) (time_of_last_write c) (Some 5) in
  let c2 := with_state c1 (Moving 0) in
  let c3 := with_state c1 (Moved 1) in
  let c4 := with_state c1 (WritingToObjectStore 1) in
  let c5 := with_state c1 (WrittenToObjectStore 1 2) in
  set_closing 5 c = (ROk tt, c1) /\
  set_moving c1 = (ROk 0, c2) /\
  set_moved 1 c2 = (ROk tt, c3) /\
  set_writing_to_object_store c3 = (ROk 1, c4) /\
  set_written_to_object_store 2 c4 = (ROk tt, c5).
Proof.
  intro c.
  assert (Hr : reachable c) by (apply reachable_new; discriminate).
  split; [exact Hr | split; [reflexivity | ]].
  exact (open_chunk_full_lifecycle c 0 5 1 2 Hr eq_refl).
Defined.

Lemma lifecycle_moves_forward_witness :
  let c := @new_open Z Z Z "p" 1 0 in
  is_panic (fst (run_op (OpTransition TSetMoving) c)) = false /\
  Nat.le (lifecycle_position (state c))
    (lifecycle_position (state (snd (run_op (OpTransition TSetMoving) c)))) /\
  fst (transition (TSetClosing 5) c) = ROk tt /\
  (Nat.lt (lifecycle_position (state c))
     (lifecycle_position (state (snd (transition (TSetClosing 5) c)))) \/
   (exists now mb, @TSetClosing Z Z 5 = TSetClosing now /\ state c = Closing mb /\
                   state (snd (transition (TSetClosing 5) c)) = Closing mb)).
Proof.
  intro c.
  destruct (@lifecycle_moves_forward Z Z Z) as (H1 & H2).
  assert (Hp : is_panic (fst (run_op (OpTransition TSetMoving) c)) = false)
    by reflexivity.
  assert (Hc : fst (transition (TSetClosing 5) c) = ROk tt) by reflexivity.
  split; [exact Hp | split; [exact (H1 _ _ Hp) | split; [exact Hc | exact (H2 _ _ Hc)]]].
Defined.

End LifecycleExtraFacts.

(** ** The catalog: creating tables, looking up partitions, listing chunks *)
Module CatalogExtraFacts.
Import Catalog.

Section Facts.
Context {CatalogChunk : Type}.
Implicit Types (c : @Catalog CatalogChunk).

Lemma hm_get_insert_new_other {V} bucket k (v : V) m n :
  n <> k -> hm_get n (hm_insert_new bucket k v m) = hm_get n m.
Proof.
  intro Hne. induction m as [ | [k' v'] rest IH]; cbn [hm_insert_new].
  - cbn [hm_get]. destruct (String.eqb_spec n k); [contradiction | reflexivity].
  - destruct (bucket k <? bucket k'); cbn [hm_get].
    + destruct (String.eqb_spec n k); [contradiction | reflexivity].
    + rewrite IH. reflexivity.
Qed.

Lemma hm_get_insert_new_same {V} bucket k (v : V) m :
  hm_get k m = None -> hm_get k (hm_insert_new bucket k v m) = Some v.
Proof.
  induction m as [ | [k' v'] rest IH]; cbn [hm_insert_new hm_get]; intro H.
  - rewrite String.eqb_refl. reflexivity.
  - destruct (String.eqb_spec k k'); [discriminate H | ].
    destruct (bucket k <? bucket k'); cbn [hm_get].
    + rewrite String.eqb_refl. reflexivity.
    + destruct (String.eqb_spec k k'); [contradiction | ]. exact (IH H).
Qed.

Lemma fold_left_app_flat_map {A B} (g : A -> list B) l acc :
  fold_left (fun acc x => acc ++ g x) l acc = acc ++ flat_map g l.
Proof.
  revert acc; induction l as [ | x l IH]; intro acc; cbn [fold_left flat_map].
  - rewrite app_nil_r. reflexivity.
  - rewrite IH, app_assoc. reflexivity.
Qed.

Lemma fold_left_ext_pointwise {A B} (f g : A -> B -> A) l a :
  (forall acc x, f acc x = g acc x) -> fold_left f l a = fold_left g l a.
Proof.
  intro H; revert a; induction l as [ | x l IH]; intro a; [reflexivity | ].
  cbn [fold_left]. rewrite H. apply IH.
Qed.

Lemma NoDup_snoc {A} (l : list A) a : NoDup l -> ~ In a l -> NoDup (l ++ [a]).
Proof.
  induction l as [ | x l IH]; intros Hnd Ha; cbn.
  - constructor; [intros [] | constructor].
  - inversion Hnd as [ | ? ? Hx Hnd']; subst.
    constructor.
    + rewrite in_app_iff. intros [H | [H | []]]; [exact (Hx H) | ].
      apply Ha; left; symmetry; exact H.
    + apply IH; [exact Hnd' | intro H; apply Ha; right; exact H].
Qed.

Lemma hs_fold_spec l s0 :
  NoDup s0 ->
  NoDup (fold_left (fun set k => hs_get_or_insert k set) l s0) /\
  (forall k, In k (fold_left (fun set k => hs_get_or_insert k set) l s0) <->
             In k s0 \/ In k l).
Proof.
  revert s0; induction l as [ | a l IH]; intros s0 Hnd; cbn [fold_left].
  - split; [exact Hnd | intro k; cbn; tauto].
  - destruct (existsb (String.eqb a) s0) eqn:Hex.
    + replace (hs_get_or_insert a s0) with s0
        by (unfold hs_get_or_insert; rewrite Hex; reflexivity).
      apply existsb_exists in Hex. destruct Hex as [x [Hx Hax]].
      apply String.eqb_eq in Hax; subst x.
      destruct (IH s0 Hnd) as [H1 H2].
      split; [exact H1 | intro k; rewrite H2; cbn; intuition congruence].
    + assert (Ha : ~ In a s0).
      { intro Hin. assert (existsb (String.eqb a) s0 = true) as Ht
          by (apply existsb_exists; exists a; split; [exact Hin | apply String.eqb_refl]).
        congruence. }
      replace (hs_get_or_insert a s0) with (s0 ++ [a])
        by (unfold hs_get_or_insert; rewrite Hex; reflexivity).
      destruct (IH (s0 ++ [a]) (NoDup_snoc s0 a Hnd Ha)) as [H1 H2].
      split; [exact H1 | intro k; rewrite H2, in_app_iff; cbn; intuition congruence].
Qed.

(** Getting or creating a table: afterwards the name maps to the table it
    already had, or to a new table without partitions; every other name
    maps to what it did; doing it again changes nothing; and a partition
    looked up in a table that has just been created is reported missing
    with its key and the table name. *)
Theorem get_or_create_table_spec (bucket : string -> Z) (tn : string) c :
  table tn (get_or_create_table bucket tn c) =
    ROk (match hm_get tn (tables c) with Some t => t | None => mkTable [] end) /\
  (forall n, n <> tn -> table n (get_or_create_table bucket tn c) = table n c) /\
  get_or_create_table bucket tn (get_or_create_table bucket tn c) =
    get_or_create_table bucket tn c /\
  db_name (get_or_create_table bucket tn c) = db_name c /\
  (table tn c = RErr (TableNotFound tn) -> forall pk,
     partition tn pk (get_or_create_table bucket tn c) =
       RErr (PartitionNotFound pk tn)).
Proof.
  unfold get_or_create_table, partition, table.
  destruct (hm_get tn (tables c)) as [t | ] eqn:Hg.
  - split; [rewrite Hg; reflexivity | ].
    split; [intros; reflexivity | ].
    split; [rewrite Hg; reflexivity | ].
    split; [reflexivity | rewrite Hg; intro H; discriminate H].
  - cbn [tables db_name].
    rewrite (hm_get_insert_new_same bucket tn (mkTable []) _ Hg).
    split; [reflexivity | ].
    split; [intros n Hn; rewrite hm_get_insert_new_other by exact Hn; reflexivity | ].
    split; [reflexivity | ].
    split; [reflexivity | ].
    intros _ pk. reflexivity.
Qed.

(** [Catalog::chunks] and the listings agree: the unfiltered listing
    ([chunk_summaries] and the like) applies its function to exactly the
    chunks [chunks] returns, in the same order. *)
Theorem filtered_chunks_all {C} (f : CatalogChunk -> C) c :
  filtered_chunks AllTables None f c = map f (all_chunks c).
Proof.
  unfold filtered_chunks, all_chunks.
  rewrite (fold_left_ext_pointwise _ (fun acc t => acc ++ table_chunks t)).
  - rewrite fold_left_app_flat_map; cbn [app].
    unfold table_chunks.
    rewrite CatalogFacts.map_flat_map, CatalogFacts.flat_map_flat_map.
    apply flat_map_ext. intro t. rewrite CatalogFacts.map_flat_map. reflexivity.
  - intros acc t. unfold table_chunks. apply fold_left_app_flat_map.
Qed.

(** Filtering by table names: the chunks come table name by table name, in
    the order of the names; with a partition key they are those of the
    partition [Catalog::partition] finds, without one those of every
    partition of the table; a name with no table, or a table without the
    partition, contributes nothing (it is skipped, not an error); an empty
    set of names gives no chunk. *)
Theorem filtered_chunks_named {C} (f : CatalogChunk -> C) (names : list string) c :
  (forall pk,
     filtered_chunks (NamedTables names) (Some pk) f c =
       flat_map (fun n => match partition n pk c with
                          | ROk p => map f (chunks p)
                          | _ => []
                          end) names) /\
  filtered_chunks (NamedTables names) None f c =
    flat_map (fun n => match table n c with
                       | ROk t => map f (table_chunks t)
                       | _ => []
                       end) names /\
  (forall pk, filtered_chunks (NamedTables []) pk f c = []).
Proof.
  unfold filtered_chunks.
  split; [ | split; [ | intros [pk | ]; reflexivity]].
  - intro pk. rewrite !CatalogFacts.flat_map_flat_map.
    apply flat_map_ext. intro n.
    unfold partition, table, table_partition.
    destruct (hm_get n (tables c)) as [t | ]; cbn [option_iter flat_map res_bind];
      [ | reflexivity].
    destruct (hm_get pk (partitions t)); cbn; rewrite ?app_nil_r; reflexivity.
  - rewrite !CatalogFacts.flat_map_flat_map.
    apply flat_map_ext. intro n.
    unfold table, table_chunks.
    destruct (hm_get n (tables c)) as [t | ]; cbn [option_iter flat_map];
      [ | reflexivity].
    rewrite app_nil_r, CatalogFacts.map_flat_map. reflexivity.
Qed.

(** [Catalog::partition_keys] holds each key of a partition of some table
    of the catalog, once, and nothing else. *)
Theorem partition_keys_spec c :
  NoDup (partition_keys c) /\
  (forall k, In k (partition_keys c) <->
             exists t, In t (hm_values (tables c)) /\ In k (table_partition_keys t)).
Proof.
  unfold partition_keys.
  assert (Hgen : forall (ts : list (@Table CatalogChunk)) s0, NoDup s0 ->
    NoDup (fold_left (fun set t => fold_left (fun set k => hs_get_or_insert k set)
                                     (table_partition_keys t) set) ts s0) /\
    (forall k, In k (fold_left (fun set t => fold_left (fun set k => hs_get_or_insert k set)
                                     (table_partition_keys t) set) ts s0) <->
               In k s0 \/ exists t, In t ts /\ In k (table_partition_keys t))).
  { induction ts as [ | t ts IH]; intros s0 Hnd; cbn [fold_left].
    - split; [exact Hnd | intro k; split; [tauto | ]].
      intros [H | [t [[] _]]]; exact H.
    - destruct (hs_fold_spec (table_partition_keys t) s0 Hnd) as [H1 H2].
      destruct (IH _ H1) as [H3 H4].
      split; [exact H3 | intro k; rewrite H4, H2].
      split.
      + intros [[H | H] | [t' [Ht' Hk]]].
        * left; exact H.
        * right; exists t; split; [left; reflexivity | exact H].
        * right; exists t'; split; [right; exact Ht' | exact Hk].
      + intros [H | [t' [[<- | Ht'] Hk]]].
        * left; left; exact H.
        * left; right; exact Hk.
        * right; exists t'; split; [exact Ht' | exact Hk]. }
  destruct (Hgen (hm_values (tables c)) [] (NoDup_nil _)) as [H1 H2].
  split; [exact H1 | intro k; rewrite H2; cbn; tauto].
Qed.

End Facts.

Local Open Scope string_scope.

Lemma get_or_create_table_spec_witness :
  let c := @new nat "db" in
  let c' := get_or_create_table (fun _ => 0%Z) "cpu" c in
  "mem" <> "cpu" /\ table "mem" c' = table "mem" c /\
  table "cpu" c = RErr (TableNotFound "cpu") /\
  partition "cpu" "p1" c' = RErr (PartitionNotFound "p1" "cpu").
Proof.
  intros c c'.
  destruct (get_or_create_table_spec (fun _ => 0%Z) "cpu" c)
    as (_ & H2 & _ & _ & H5).
  assert (Hne : "mem" <> "cpu") by discriminate.
  assert (Hc : table "cpu" c = RErr (TableNotFound "cpu")) by reflexivity.
  split; [exact Hne | split; [exact (H2 _ Hne) | split; [exact Hc | exact (H5 Hc "p1")]]].
Defined.

End CatalogExtraFacts.

(** ** Read buffer chunks: the schema of a read *)
Module ReadBufferExtraFacts.
Import ReadBuffer.

Section Facts.
Context {Table TableError ColumnSchema Schema SchemaError : Type}.
Variable table_name : Table -> string.
Variable has_column : Table -> string -> bool.
Variable schema_for_all_columns : Table -> list ColumnSchema.
Variable schema_for_column_names : Table -> list string -> list ColumnSchema.
Variable schema_try_from : list ColumnSchema -> Res SchemaError Schema.

Let rfts := read_filter_table_schema (TableError := TableError) table_name has_column
  schema_for_all_columns schema_for_column_names schema_try_from.
Let validate := validate_columns (TableError := TableError) table_name has_column.

Lemma validate_columns_first_missing t pre col post :
  forallb (has_column t) pre = true -> has_column t col = false ->
  validate t (pre ++ col :: post) = RErr (ColumnDoesNotExist col (table_name t)).
Proof.
  intros Hpre Hcol. induction pre as [ | x pre IH]; cbn [app validate_columns].
  - unfold validate; cbn [validate_columns]. rewrite Hcol. reflexivity.
  - cbn [forallb] in Hpre. apply andb_true_iff in Hpre as [Hx Hpre].
    unfold validate in *; cbn [validate_columns]. rewrite Hx. exact (IH Hpre).
Qed.

Lemma validate_columns_all_present t cols :
  forallb (has_column t) cols = true -> validate t cols = ROk tt.
Proof.
  induction cols as [ | x cols IH]; intro H; [reflexivity | ].
  cbn [forallb] in H. apply andb_true_iff in H as [Hx H].
  unfold validate in *; cbn [validate_columns]. rewrite Hx. exact (IH H).
Qed.

Lemma validate_columns_err t cols e :
  validate t cols = RErr e ->
  exists col, In col cols /\ has_column t col = false /\
              e = ColumnDoesNotExist col (table_name t).
Proof.
  induction cols as [ | x cols IH]; unfold validate; cbn [validate_columns];
    intro H; [discriminate H | ].
  destruct (has_column t x) eqn:Hx.
  - destruct (IH H) as [col (Hin & Hc & ->)].
    exists col; split; [right; exact Hin | split; [exact Hc | reflexivity]].
  - injection H as <-. exists x; split; [left; reflexivity | split; [exact Hx | reflexivity]].
Qed.

Lemma validate_columns_no_panic t cols m : validate t cols <> RPanic m.
Proof.
  induction cols as [ | x cols IH]; unfold validate; cbn [validate_columns];
    [discriminate | ].
  destruct (has_column t x); [exact IH | discriminate].
Qed.

(** Building the schema of a read: with a selection of columns, the first
    selected column the table lacks is reported as [ColumnDoesNotExist]
    with the table's name, before any schema is built; when the table has
    every selected column, the result is the schema built from those
    columns, a failure of the build becoming [TableSchemaError]; and
    whatever the selection (the whole table included), every error is
    either [TableSchemaError] or a selected column the table lacks. *)
Theorem read_filter_table_schema_spec (c : Chunk (Table := Table)) :
  (forall pre col post,
     forallb (has_column (table c)) pre = true ->
     has_column (table c) col = false ->
     rfts c (Some_ (pre ++ col :: post)) =
       RErr (ColumnDoesNotExist col (table_name (table c)))) /\
  (forall cols, forallb (has_column (table c)) cols = true ->
     rfts c (Some_ cols) =
       res_map_err (fun _ => TableSchemaError)
         (schema_try_from (schema_for_column_names (table c) cols))) /\
  (forall sel e, rfts c sel = RErr e ->
     e = TableSchemaError \/
     exists cols col, sel = Some_ cols /\ In col cols /\
                      has_column (table c) col = false /\
                      e = ColumnDoesNotExist col (table_name (table c))).
Proof.
  split; [ | split].
  - intros pre col post Hpre Hcol. unfold rfts, read_filter_table_schema.
    fold validate. rewrite (validate_columns_first_missing _ _ _ _ Hpre Hcol).
    reflexivity.
  - intros cols H. unfold rfts, read_filter_table_schema.
    fold validate. rewrite (validate_columns_all_present _ _ H). reflexivity.
  - intros sel e. unfold rfts, read_filter_table_schema.
    destruct sel as [ | cols]; cbn [res_bind].
    + destruct (schema_try_from (schema_for_all_columns (table c)));
        cbn [res_map_err]; intro H; try discriminate H.
      injection H as <-. left; reflexivity.
    + fold validate. destruct (validate (table c) cols) as [[] | e' | m] eqn:Hv;
        cbn [res_bind].
      * destruct (schema_try_from (schema_for_column_names (table c) cols));
          cbn [res_map_err]; intro H; try discriminate H.
        injection H as <-. left; reflexivity.
      * intro H; injection H as <-.
        destruct (validate_columns_err _ _ _ Hv) as [col (Hin & Hc & ->)].
        right; exists cols, col; repeat split; assumption.
      * intro H; discriminate H.
Qed.

End Facts.

Local Open Scope string_scope.

Lemma read_filter_table_schema_spec_witness :
  let rfts := read_filter_table_schema (TableError := unit)
                (fun _ : list string => "cpu")
                (fun t x => existsb (String.eqb x) t)
                (fun t => t) (fun _ names => names)
                (fun l => @ROk unit (list string) l) in
  let c := mkChunk ["a"; "b"] in
  forallb (fun x => existsb (String.eqb x) ["a"; "b"]) ["a"] = true /\
  existsb (String.eqb "z") ["a"; "b"] = false /\
  rfts c (Some_ (["a"] ++ "z" :: ["b"])) = RErr (ColumnDoesNotExist "z" "cpu") /\
  forallb (fun x => existsb (String.eqb x) ["a"; "b"]) ["b"] = true /\
  rfts c (Some_ ["b"]) = ROk ["b"] /\
  rfts c (Some_ ["z"]) = RErr (ColumnDoesNotExist "z" "cpu") /\
  (ColumnDoesNotExist (TableError := unit) "z" "cpu" = TableSchemaError \/
   exists cols col, Some_ ["z"] = Some_ cols /\ In col cols /\
                    existsb (String.eqb col) ["a"; "b"] = false /\
                    ColumnDoesNotExist (TableError := unit) "z" "cpu" =
                      ColumnDoesNotExist col "cpu").
Proof.
  intros rfts c.
  destruct (read_filter_table_schema_spec (TableError := unit)
              (fun _ : list string => "cpu") (fun t x => existsb (String.eqb x) t)
              (fun t => t) (fun _ names => names)
              (fun l => @ROk unit (list string) l) c) as (H1 & H2 & H3).
  assert (Hpre : forallb (fun x => existsb (String.eqb x) ["a"; "b"]) ["a"] = true)
    by reflexivity.
  assert (Hz : existsb (String.eqb "z") ["a"; "b"] = false) by reflexivity.
  assert (Hb : forallb (fun x => existsb (String.eqb x) ["a"; "b"]) ["b"] = true)
    by reflexivity.
  split; [exact Hpre | split; [exact Hz | split; [exact (H1 _ _ ["b"] Hpre Hz) | ]]].
  assert (Hz' : rfts c (Some_ ["z"]) = RErr (ColumnDoesNotExist "z" "cpu"))
    by reflexivity.
  split; [exact Hb | split; [exact (H2 _ Hb) | split; [exact Hz' | ]]].
  exact (H3 (Some_ ["z"]) (ColumnDoesNotExist "z" "cpu") Hz').
Defined.

End ReadBufferExtraFacts.

(** ** The HTTP write route: what each outcome says *)
Module HttpWriteExtraFacts.
Import HttpWrite.

Section Facts.
Variable ServerState : Type.
Variable max_request_size : ServerState -> Z.
Variable Batches Stats : Type.
Variable write : ServerState -> string -> Batches -> Res InnerWriteError unit * ServerState.
Variable record_write : ServerState -> string -> Stats -> nat -> bool -> ServerState.
Variable urlencoded_from_str : string -> option WriteInfo.
Variable parse_body : Request -> Z -> option (list Byte.byte).
Variable from_utf8 : list Byte.byte -> option string.
Variable lines_to_batches_stats : string -> Z -> (Batches * Stats) + LpError.
Variable now : Z.

Let route := route_write_http_request ServerState max_request_size Batches Stats
  write record_write urlencoded_from_str parse_body from_utf8
  lines_to_batches_stats now.

Ltac split_route H :=
  unfold route, route_write_http_request in H;
  repeat match type of H with
         | context [match ?x with _ => _ end] =>
             let E := fresh "E" in destruct x eqn:E
         end;
  unfold org_and_bucket_to_database in *; try discriminate.

(** The outcomes of the write route: a request handed back (to the next
    route) is the request itself, untouched, with the server unchanged,
    and only when it is not a [POST] to [/api/v2/write]; a response is
    always [204 No Content] to such a [POST]; an error leaves the server
    state as it was, except a [DatabaseNotFound] or [WritingPoints] error,
    which come after the server's [write] ran; and the route panics only
    when the server's [write] does. *)
Theorem route_write_outcomes (srv : ServerState) (req : Request) :
  (forall rq srv', route srv req = (ROk (RRequest rq), srv') ->
     rq = req /\ srv' = srv /\
     (method_eqb (method req) POST && String.eqb (path req) "/api/v2/write")%bool
       = false) /\
  (forall st srv', route srv req = (ROk (RResponse st), srv') ->
     st = NO_CONTENT /\ method req = POST /\ path req = "/api/v2/write"%string) /\
  (forall e srv', route srv req = (RErr e, srv') ->
     (forall d, e <> DatabaseNotFound d) -> (forall o b, e <> WritingPoints o b) ->
     srv' = srv) /\
  (forall m srv', route srv req = (RPanic m, srv') ->
     exists db tables, fst (write srv db tables) = RPanic m).
Proof.
  destruct req as [meth p q b].
  assert (Hpost : forall x, method_eqb x POST = true -> x = POST)
    by (intros []; cbn; congruence).
  split; [ | split; [ | split]].
  - intros rq srv' H. split_route H; cbn [method path] in *;
      try discriminate H.
    injection H as <- <-. split; [reflexivity | split; [reflexivity | ]].
    destruct (method_eqb meth POST), (String.eqb p "/api/v2/write");
      cbn in E |- *; congruence.
  - intros st srv' H. split_route H; cbn [method path] in *; try discriminate H.
    + injection H as <- _.
      apply orb_false_iff in E as [Em Ep]. apply negb_false_iff in Em, Ep.
      apply String.eqb_eq in Ep. split; [reflexivity | split; [exact (Hpost _ Em) | exact Ep]].
    + injection H as <- _.
      apply orb_false_iff in E as [Em Ep]. apply negb_false_iff in Em, Ep.
      apply String.eqb_eq in Ep. split; [reflexivity | split; [exact (Hpost _ Em) | exact Ep]].
  - intros e srv' H Hd Hw. split_route H; try discriminate H;
      injection H as <- <-;
      solve [ reflexivity | exfalso; eapply Hd; reflexivity
            | exfalso; eapply Hw; reflexivity ].
  - intros m srv' H. split_route H; try discriminate H;
      first
        [ match goal with Eo : ROk _ = RPanic _ |- _ => discriminate Eo end
        | injection H as <- _;
          match goal with
          | Hw : write srv ?d ?t = (RPanic _, _) |- _ =>
              exists d, t; rewrite Hw; reflexivity
          end ].
Qed.

End Facts.

Local Open Scope string_scope.

Lemma route_write_outcomes_witness :
  let ok_write := fun (s : nat) (_ : string) (_ : unit) => (@ROk InnerWriteError unit tt, S s) in
  let panicking_write := fun (s : nat) (_ : string) (_ : unit) =>
                           (@RPanic InnerWriteError unit "boom", s) in
  let get := mkRequest GET "/health" None [] in
  let post := mkRequest POST "/api/v2/write" (Some "org=MyOrg&bucket=MyBucket") [] in
  let post_no_query := mkRequest POST "/api/v2/write" None [] in
  counting_route ok_write (inr EmptyPayload) 7%nat get = (ROk (RRequest get), 7%nat) /\
  (get = get /\ 7%nat = 7%nat /\
   (method_eqb (method get) POST && String.eqb (path get) "/api/v2/write")%bool = false) /\
  counting_route ok_write (inr EmptyPayload) 7%nat post = (ROk (RResponse NO_CONTENT), 7%nat) /\
  (NO_CONTENT = NO_CONTENT /\ method post = POST /\ path post = "/api/v2/write") /\
  counting_route ok_write (inr EmptyPayload) 7%nat post_no_query =
    (RErr ExpectedQueryString, 7%nat) /\
  7%nat = 7%nat /\
  counting_route panicking_write (inl (tt, tt)) 7%nat post = (RPanic "boom", 7%nat) /\
  (exists db tables, fst (panicking_write 7%nat db tables) = RPanic "boom").
Proof.
  intros ok_write panicking_write get post post_no_query.
  destruct (route_write_outcomes nat (fun _ => 1024%Z) unit unit ok_write
              (fun s _ _ _ _ => S s) (fun _ => Some (mkWriteInfo "MyOrg" "MyBucket"))
              (fun r _ => Some (body r)) (fun _ => Some "cpu v=1")
              (fun _ _ => inr EmptyPayload) 0 7%nat get) as (G1 & _ & _ & _).
  destruct (route_write_outcomes nat (fun _ => 1024%Z) unit unit ok_write
              (fun s _ _ _ _ => S s) (fun _ => Some (mkWriteInfo "MyOrg" "MyBucket"))
              (fun r _ => Some (body r)) (fun _ => Some "cpu v=1")
              (fun _ _ => inr EmptyPayload) 0 7%nat post) as (_ & P2 & _ & _).
  destruct (route_write_outcomes nat (fun _ => 1024%Z) unit unit ok_write
              (fun s _ _ _ _ => S s) (fun _ => Some (mkWriteInfo "MyOrg" "MyBucket"))
              (fun r _ => Some (body r)) (fun _ => Some "cpu v=1")
              (fun _ _ => inr EmptyPayload) 0 7%nat post_no_query) as (_ & _ & Q3 & _).
  destruct (route_write_outcomes nat (fun _ => 1024%Z) unit unit panicking_write
              (fun s _ _ _ _ => S s) (fun _ => Some (mkWriteInfo "MyOrg" "MyBucket"))
              (fun r _ => Some (body r)) (fun _ => Some "cpu v=1")
              (fun _ _ => inl (tt, tt)) 0 7%nat post) as (_ & _ & _ & K4).
  assert (Hg : counting_route ok_write (inr EmptyPayload) 7%nat get =
               (ROk (RRequest get), 7%nat)) by reflexivity.
  assert (Hp : counting_route ok_write (inr EmptyPayload) 7%nat post =
               (ROk (RResponse NO_CONTENT), 7%nat)) by reflexivity.
  assert (Hq : counting_route ok_write (inr EmptyPayload) 7%nat post_no_query =
               (RErr ExpectedQueryString, 7%nat)) by reflexivity.
  assert (Hk : counting_route panicking_write (inl (tt, tt)) 7%nat post =
               (RPanic "boom", 7%nat)) by reflexivity.
  split; [exact Hg | split; [exact (G1 _ _ Hg) | ]].
  split; [exact Hp | split; [exact (P2 _ _ Hp) | ]].
  split; [exact Hq | split;
    [exact (Q3 _ _ Hq (fun d Hx => ltac:(discriminate Hx))
                     (fun o b Hx => ltac:(discriminate Hx))) | ]].
  split; [exact Hk | exact (K4 _ _ Hk)].
Defined.

End HttpWriteExtraFacts.

(** ** System tables: the rows of [system.columns] and [system.chunk_columns] *)
Module SystemColumnsExtraFacts.
Import ChunkMetadata SystemColumns.

Section Facts.
Context {Statistics InfluxDbType : Type}.
Variable type_name : @ColumnSummary Statistics InfluxDbType -> string.
Variable influxdb_type_as_str : InfluxDbType -> string.
Variable total_count : @ColumnSummary Statistics InfluxDbType -> Z.
Variable null_count : @ColumnSummary Statistics InfluxDbType -> Z.
Variable min_as_str : Statistics -> option string.
Variable max_as_str : Statistics -> option string.
Variable uuid_to_string : Uuid -> string.

Lemma flat_map_length_ext {A B C} (g : A -> list B) (h : A -> list C) l :
  (forall x, length (g x) = length (h x)) ->
  length (flat_map g l) = length (flat_map h l).
Proof.
  intro H; induction l as [ | x l IH]; [reflexivity | ].
  cbn [flat_map]. rewrite !length_app, H, IH. reflexivity.
Qed.

Lemma fold_append_column (p : PartitionSummary) cols b :
  fold_left (append_column type_name influxdb_type_as_str p) cols b =
  mkBuilders
    (b_partition_key b ++ map (fun _ => Some (ps_key p)) cols)
    (b_table_name b ++ map (fun _ => Some (ts_name (ps_table p))) cols)
    (b_column_name b ++ map (fun c => Some (cs_name c)) cols)
    (b_column_type b ++ map (fun c => Some (type_name c)) cols)
    (b_influxdb_type b ++
       map (fun c => option_map influxdb_type_as_str (cs_influxdb_type c)) cols).
Proof.
  revert b; induction cols as [ | c cols IH]; intro b; cbn [fold_left map].
  - destruct b; cbn; rewrite !app_nil_r; reflexivity.
  - rewrite IH. unfold append_column, append_value, append_null.
    destruct (cs_influxdb_type c); cbn; rewrite <- !app_assoc; reflexivity.
Qed.

Lemma fold_partitions (ps : list PartitionSummary) b :
  fold_left (fun b p => fold_left (append_column type_name influxdb_type_as_str p)
                          (ts_columns (ps_table p)) b) ps b =
  mkBuilders
    (b_partition_key b ++
       flat_map (fun p => map (fun _ => Some (ps_key p)) (ts_columns (ps_table p))) ps)
    (b_table_name b ++
       flat_map (fun p => map (fun _ => Some (ts_name (ps_table p)))
                              (ts_columns (ps_table p))) ps)
    (b_column_name b ++
       flat_map (fun p => map (fun c => Some (cs_name c)) (ts_columns (ps_table p))) ps)
    (b_column_type b ++
       flat_map (fun p => map (fun c => Some (type_name c)) (ts_columns (ps_table p))) ps)
    (b_influxdb_type b ++
       flat_map (fun p => map (fun c => option_map influxdb_type_as_str (cs_influxdb_type c))
                              (ts_columns (ps_table p))) ps).
Proof.
  revert b; induction ps as [ | p ps IH]; intro b; cbn [fold_left flat_map].
  - destruct b; cbn; rewrite !app_nil_r; reflexivity.
  - rewrite IH, fold_append_column. cbn. rewrite <- !app_assoc. reflexivity.
Qed.

(** [system.columns]: built from any list of partition summaries, the
    batch never fails; it has one row per column of each partition's
    table, partition by partition and column by column, holding the
    partition key, the table name, the column name, the column's type
    name, and its InfluxDB type, null exactly when the column has none; a
    partition whose table has no column gives no row. *)
Theorem from_partition_summaries_rows (ps : list PartitionSummary) :
  from_partition_summaries type_name influxdb_type_as_str partition_summaries_schema ps =
  ROk (mkRecordBatch partition_summaries_schema
    [StringArray (flat_map (fun p => map (fun _ => Some (ps_key p))
                                         (ts_columns (ps_table p))) ps);
     StringArray (flat_map (fun p => map (fun _ => Some (ts_name (ps_table p)))
                                         (ts_columns (ps_table p))) ps);
     StringArray (flat_map (fun p => map (fun c => Some (cs_name c))
                                         (ts_columns (ps_table p))) ps);
     StringArray (flat_map (fun p => map (fun c => Some (type_name c))
                                         (ts_columns (ps_table p))) ps);
     StringArray (flat_map (fun p => map (fun c => option_map influxdb_type_as_str
                                                     (cs_influxdb_type c))
                                         (ts_columns (ps_table p))) ps)]).
Proof.
  unfold from_partition_summaries. rewrite fold_partitions. cbn [b_partition_key
    b_table_name b_column_name b_column_type b_influxdb_type app].
  set (n := length (flat_map (fun p => ts_columns (ps_table p)) ps)).
  assert (Hlen : forall {A} (f : PartitionSummary -> ColumnSummary -> A),
            length (flat_map (fun p => map (f p) (ts_columns (ps_table p))) ps) = n).
  { intros A f. apply flat_map_length_ext. intro p. apply length_map. }
  unfold try_new. cbn [length combine forallb data_type partition_summaries_schema
    array_data_type data_type_eqb array_len Nat.eqb negb andb].
  rewrite !Hlen, Nat.eqb_refl. reflexivity.
Qed.


Lemma fst_sm_remove_cons {V} k k0 (v0 : V) rest :
  fst (sm_remove k ((k0, v0) :: rest)) =
    if String.eqb k k0 then Some v0 else fst (sm_remove k rest).
Proof.
  cbn [sm_remove]. destruct (String.eqb k k0); [reflexivity | ].
  destruct (sm_remove k rest); reflexivity.
Qed.

Lemma sm_remove_absent {V} k (m : StrMap V) :
  ~ In k (map fst m) -> fst (sm_remove k m) = None.
Proof.
  induction m as [ | [k0 v0] rest IH]; intro H; [reflexivity | ].
  rewrite fst_sm_remove_cons. cbn [map fst In] in H.
  destruct (String.eqb_spec k k0); [subst; exfalso; apply H; left; reflexivity | ].
  apply IH. intro H'; apply H; right; exact H'.
Qed.

Lemma sm_remove_insert {V} k k' (v : V) m :
  fst (sm_remove k (sm_insert k' v m)) =
    if String.eqb k' k then Some v else fst (sm_remove k m).
Proof.
  induction m as [ | [k0 v0] rest IH]; cbn [sm_insert].
  - rewrite fst_sm_remove_cons. cbn.
    destruct (String.eqb_spec k k'), (String.eqb_spec k' k); congruence.
  - destruct (String.eqb_spec k' k0) as [<- | Hne].
    + rewrite !fst_sm_remove_cons.
      destruct (String.eqb_spec k k'), (String.eqb_spec k' k); congruence.
    + rewrite !fst_sm_remove_cons, IH.
      destruct (String.eqb_spec k k0), (String.eqb_spec k' k); congruence.
Qed.

Lemma sm_insert_keys {V} k (v : V) m x :
  In x (map fst (sm_insert k v m)) <-> x = k \/ In x (map fst m).
Proof.
  induction m as [ | [k0 v0] rest IH]; cbn [sm_insert].
  - cbn. intuition congruence.
  - destruct (String.eqb_spec k k0) as [<- | Hne]; cbn [map fst In].
    + intuition congruence.
    + rewrite IH. intuition congruence.
Qed.

Lemma sm_insert_nodup {V} k (v : V) m :
  NoDup (map fst m) -> NoDup (map fst (sm_insert k v m)).
Proof.
  induction m as [ | [k0 v0] rest IH]; intro Hnd; cbn [sm_insert].
  - constructor; [intros [] | constructor].
  - cbn [map fst] in Hnd. inversion Hnd as [ | ? ? Hk Hnd']; subst.
    destruct (String.eqb_spec k k0) as [<- | Hne]; cbn [map fst].
    + constructor; assumption.
    + constructor; [ | exact (IH Hnd')].
      rewrite sm_insert_keys. intros [H | H]; [congruence | exact (Hk H)].
Qed.

Lemma sm_from_iter_nodup {V} (l : list (string * V)) m0 :
  NoDup (map fst m0) ->
  NoDup (map fst (fold_left (fun m '(k, v) => sm_insert k v m) l m0)).
Proof.
  revert m0; induction l as [ | [k v] l IH]; intros m0 Hnd; [exact Hnd | ].
  cbn [fold_left]. apply IH, sm_insert_nodup, Hnd.
Qed.

Lemma sm_remove_from_iter {V} k (l : list (string * V)) m0 :
  fst (sm_remove k (fold_left (fun m '(k', v) => sm_insert k' v m) l m0)) =
  fold_left (fun acc '(k', v) => if String.eqb k' k then Some v else acc) l
    (fst (sm_remove k m0)).
Proof.
  revert m0; induction l as [ | [k' v] l IH]; intro m0; [reflexivity | ].
  cbn [fold_left]. rewrite IH, sm_remove_insert. reflexivity.
Qed.

Lemma sm_remove_keys_sub {V} k (m : StrMap V) x :
  In x (map fst (snd (sm_remove k m))) -> In x (map fst m).
Proof.
  induction m as [ | [k0 v0] rest IH]; cbn [sm_remove]; [tauto | ].
  destruct (String.eqb k k0); cbn [snd map fst In].
  - intro H; right; exact H.
  - destruct (sm_remove k rest) as [o rest'] eqn:E; cbn [snd map fst In].
    cbn [snd] in IH. intros [H | H]; [left; exact H | right; exact (IH H)].
Qed.

Lemma sm_remove_rest {V} k (m : StrMap V) :
  NoDup (map fst m) ->
  NoDup (map fst (snd (sm_remove k m))) /\
  (forall x, fst (sm_remove x (snd (sm_remove k m))) =
             if String.eqb x k then None else fst (sm_remove x m)).
Proof.
  induction m as [ | [k0 v0] rest IH]; intro Hnd.
  - split; [constructor | intro x; cbn; destruct (String.eqb x k); reflexivity].
  - cbn [map fst] in Hnd. inversion Hnd as [ | ? ? Hk Hnd']; subst.
    destruct (IH Hnd') as [IH1 IH2].
    destruct (String.eqb_spec k k0) as [<- | Hne].
    + assert (Hs : sm_remove k ((k, v0) :: rest) = (Some v0, rest))
        by (cbn [sm_remove]; rewrite String.eqb_refl; reflexivity).
      rewrite Hs. cbn [snd]. split; [exact Hnd' | intro x].
      rewrite fst_sm_remove_cons.
      destruct (String.eqb_spec x k) as [-> | _]; [ | reflexivity].
      exact (sm_remove_absent _ _ Hk).
    + assert (Hs : sm_remove k ((k0, v0) :: rest) =
                   (fst (sm_remove k rest), (k0, v0) :: snd (sm_remove k rest))).
      { cbn [sm_remove]. destruct (String.eqb_spec k k0); [contradiction | ].
        destruct (sm_remove k rest); reflexivity. }
      rewrite Hs. cbn [snd]. split.
      * cbn [map fst]. constructor;
          [intro H; exact (Hk (sm_remove_keys_sub k rest _ H)) | exact IH1].
      * intro x. rewrite !fst_sm_remove_cons, IH2.
        destruct (String.eqb_spec x k0), (String.eqb_spec x k); congruence.
Qed.

Lemma remove_each_spec {V} names (m : StrMap V) :
  NoDup (map fst m) ->
  length (remove_each names m) = length names /\
  (forall j n, nth_error names j = Some n ->
     nth_error (remove_each names m) j =
       Some (if existsb (String.eqb n) (firstn j names) then None
             else fst (sm_remove n m))).
Proof.
  revert m; induction names as [ | n0 names IH]; intros m Hnd.
  - split; [reflexivity | intros [ | j] n H; discriminate H].
  - destruct (sm_remove_rest n0 m Hnd) as [Hnd' Hrest].
    cbn [remove_each].
    destruct (sm_remove n0 m) as [o m'] eqn:E; cbn [fst snd] in *.
    destruct (IH m' Hnd') as [IH1 IH2].
    split; [cbn [length]; rewrite IH1; reflexivity | ].
    intros [ | j] n H; cbn [nth_error] in H |- *.
    + injection H as <-. cbn. rewrite E. reflexivity.
    + rewrite (IH2 j n H), Hrest. cbn [firstn existsb].
      destruct (String.eqb n n0), (existsb (String.eqb n) (firstn j names));
        reflexivity.
Qed.

Lemma column_sizes_lookup n (l : list ChunkColumnSummary) :
  fst (sm_remove n (sm_from_iter
         (map (fun c => (ccs_name c, Wire.usize_as_u64 (ccs_memory_bytes c))) l))) =
  last_memory_bytes n l.
Proof.
  unfold sm_from_iter, last_memory_bytes. rewrite sm_remove_from_iter.
  cbn [sm_remove fst]. generalize (@None Z) as acc.
  induction l as [ | c l IH]; intro acc; [reflexivity | ].
  cbn [map fold_left]. apply IH.
Qed.

(** [system.chunk_columns]: the memory cells of a chunk are, column by
    column of its table summary, the memory (as [u64]) of the chunk's
    last detailed column of that name, or null when the chunk has no such
    column or when the name already occurred earlier among the table's
    columns (the size is taken out of the map at its first use); and,
    built from any list of (table summary, detailed chunk summary) pairs,
    the batch never fails, its ten columns all having one row per column
    of each pair's table summary. *)
Theorem assemble_chunk_columns_rows
    (l : list (@TableSummary Statistics InfluxDbType * DetailedChunkSummary)) :
  (forall (ts : @TableSummary Statistics InfluxDbType) cs,
     length (column_memory_bytes ts cs) = length (ts_columns ts) /\
     (forall j n, nth_error (map cs_name (ts_columns ts)) j = Some n ->
        nth_error (column_memory_bytes ts cs) j =
          Some (if existsb (String.eqb n) (firstn j (map cs_name (ts_columns ts)))
                then None else last_memory_bytes n (columns cs)))) /\
  (exists cols,
     assemble_chunk_columns total_count null_count min_as_str max_as_str uuid_to_string
       chunk_columns_schema l = ROk (mkRecordBatch chunk_columns_schema cols) /\
     length cols = 10%nat /\
     Forall (fun a => array_len a = length (flat_map (fun p => ts_columns (fst p)) l))
       cols).
Proof.
  assert (Hcol : forall (ts : @TableSummary Statistics InfluxDbType) cs,
     length (column_memory_bytes ts cs) = length (ts_columns ts) /\
     (forall j n, nth_error (map cs_name (ts_columns ts)) j = Some n ->
        nth_error (column_memory_bytes ts cs) j =
          Some (if existsb (String.eqb n) (firstn j (map cs_name (ts_columns ts)))
                then None else last_memory_bytes n (columns cs)))).
  { intros ts cs. unfold column_memory_bytes.
    destruct (remove_each_spec (map cs_name (ts_columns ts))
                (sm_from_iter (map (fun c => (ccs_name c,
                   Wire.usize_as_u64 (ccs_memory_bytes c))) (columns cs))))
      as [H1 H2].
    { apply sm_from_iter_nodup. constructor. }
    split; [rewrite H1; apply length_map | ].
    intros j n Hj. rewrite (H2 j n Hj), column_sizes_lookup. reflexivity. }
  split; [exact Hcol | ].
  set (n := length (flat_map (fun p => ts_columns (fst p)) l)).
  assert (Hrows : forall {A} (f : DetailedChunkSummary -> ColumnSummary -> A),
    length (map (fun '(cs, col) => f cs col)
              (flat_map (fun '(ts, cs) => map (fun col => (cs, col)) (ts_columns ts)) l))
    = n).
  { intros A f. rewrite length_map. apply flat_map_length_ext.
    intros [ts cs]. apply length_map. }
  assert (Hmem : length (flat_map (fun '(ts, cs) => column_memory_bytes ts cs) l) = n).
  { apply flat_map_length_ext. intros [ts cs]. apply (proj1 (Hcol ts cs)). }
  eexists; split.
  - unfold assemble_chunk_columns, try_new.
    cbn [length combine forallb data_type chunk_columns_schema
         array_data_type data_type_eqb array_len Nat.eqb negb andb].
    rewrite Hmem.
    rewrite (Hrows _ (fun cs _ => Some (partition_key (inner cs)))),
      (Hrows _ (fun cs _ => Some (uuid_to_string (id (inner cs))))),
      (Hrows _ (fun cs _ => Some (table_name (inner cs)))),
      (Hrows _ (fun _ col => Some (cs_name col))),
      (Hrows _ (fun cs _ => Some (as_str (storage (inner cs))))),
      (Hrows _ (fun _ col => Some (total_count col))),
      (Hrows _ (fun _ col => Some (null_count col))),
      (Hrows _ (fun _ col => min_as_str (cs_stats col))),
      (Hrows _ (fun _ col => max_as_str (cs_stats col))).
    rewrite Nat.eqb_refl. reflexivity.
  - split; [reflexivity | ].
    repeat constructor; cbn [array_len];
      first [ exact Hmem | exact (Hrows _ _) ].
Qed.

End Facts.

Local Open Scope string_scope.

Lemma from_partition_summaries_rows_witness :
  let ps := [mkPartitionSummary "2021" (mkTableSummary "cpu"
               [mkColumnSummary "host" (Some tt) tt; mkColumnSummary "v" None tt]);
             mkPartitionSummary "2022" (mkTableSummary "mem" [])] in
  from_partition_summaries (fun _ => "String") (fun _ => "Tag")
    partition_summaries_schema ps =
  ROk (mkRecordBatch partition_summaries_schema
    [StringArray [Some "2021"; Some "2021"]; StringArray [Some "cpu"; Some "cpu"];
     StringArray [Some "host"; Some "v"]; StringArray [Some "String"; Some "String"];
     StringArray [Some "Tag"; None]]).
Proof.
  intro ps.
  exact (from_partition_summaries_rows (Statistics := unit) (InfluxDbType := unit)
           (fun _ => "String") (fun _ => "Tag") ps).
Defined.

Lemma assemble_chunk_columns_rows_witness :
  let ts := @mkTableSummary unit unit "cpu" [mkColumnSummary "a" None tt;
                                  mkColumnSummary "b" None tt;
                                  mkColumnSummary "a" None tt] in
  let cs := mkDetailedChunkSummary Wire.sample_summary
              [mkChunkColumnSummary "a" 5; mkChunkColumnSummary "a" 7] in
  nth_error (map cs_name (ts_columns ts)) 0 = Some "a" /\
  nth_error (column_memory_bytes ts cs) 0 = Some (Some 7) /\
  nth_error (map cs_name (ts_columns ts)) 2 = Some "a" /\
  nth_error (column_memory_bytes ts cs) 2 = Some None.
Proof.
  intros ts cs.
  destruct (assemble_chunk_columns_rows (Statistics := unit) (InfluxDbType := unit)
              (fun _ => 0) (fun _ => 0) (fun _ => None) (fun _ => None)
              (fun _ => "") [(ts, cs)]) as [Hcol _].
  destruct (Hcol ts cs) as [_ Hnth].
  assert (H0 : nth_error (map cs_name (ts_columns ts)) 0 = Some "a") by reflexivity.
  assert (H2 : nth_error (map cs_name (ts_columns ts)) 2 = Some "a") by reflexivity.
  split; [exact H0 | split; [rewrite (Hnth 0%nat "a" H0); reflexivity | ]].
  split; [exact H2 | rewrite (Hnth 2%nat "a" H2); reflexivity].
Defined.

End SystemColumnsExtraFacts.

Module ChunkQueryFacts.
Import CatalogChunk.

Section Facts.
Context {MB RB PQ : Type}.
Variable mb_has_table : MB -> string -> bool.
Variable mb_size : MB -> Z.
Variable db_has_table : RB -> string -> string -> list Z -> bool.
Variable db_chunks_size : RB -> string -> list Z -> option Z.
Variable pq_size : PQ -> Z.
Let has_table := @has_table MB RB PQ mb_has_table db_has_table.
Let size := @size MB RB PQ mb_size db_chunks_size pq_size.
Implicit Types (c : @Chunk MB RB PQ) (t : @Transition RB PQ).

(** What a chunk answers about its tables and its memory follows its data:
    a successful transition other than [set_moved] changes neither the
    answer of [has_table] nor, [set_written_to_object_store] apart, the
    [size]; after [set_moved] the chunk answers [has_table] from the read
    buffer database it was given, for its own partition key and id; after
    [set_written_to_object_store] its size grows by the parquet chunk's
    size (when the sum fits in a [usize]); recording a write changes
    neither. *)
Theorem chunk_queries_follow_transitions :
  (forall t c, fst (transition t c) = ROk tt ->
     (forall db, t <> TSetMoved db) ->
     (forall tn, has_table (snd (transition t c)) tn = has_table c tn) /\
     ((forall pq, t <> TSetWrittenToObjectStore pq) ->
      size (snd (transition t c)) = size c)) /\
  (forall (db : RB) c, fst (set_moved db c) = ROk tt ->
     forall tn, has_table (snd (set_moved db c)) tn =
                db_has_table db (partition_key c) tn [id c]) /\
  (forall (pq : PQ) c, fst (set_written_to_object_store pq c) = ROk tt ->
     0 <= pq_size pq -> pq_size pq + size c < 2 ^ 64 ->
     size (snd (set_written_to_object_store pq c)) = pq_size pq + size c) /\
  (forall c (now : DateTime), (forall tn, has_table (record_write now c) tn = has_table c tn) /\
                 size (record_write now c) = size c).
Proof.
  unfold has_table, size. split; [ | split; [ | split]].
  - intros t c Hok Hnm.
    LifecycleFacts.destruct_chunk c.
    destruct t as [now | | db | | pq]; destruct st; cbn in Hok |- *;
      try (destruct tc; cbn in Hok);
      try discriminate Hok;
      try (exfalso; exact (Hnm _ eq_refl));
      (split; [intro tn; reflexivity | intro Hw]);
      first [reflexivity | exfalso; exact (Hw _ eq_refl)].
  - intros db c Hok tn.
    LifecycleFacts.destruct_chunk c; destruct st; cbn in Hok |- *;
      first [discriminate Hok | reflexivity].
  - intros pq c Hok Hp Hsum.
    LifecycleFacts.destruct_chunk c; destruct st; cbn in Hok, Hsum |- *;
      try discriminate Hok.
    unfold usize_add, u64_as_usize in *.
    pose proof (Z.mod_pos_bound (unwrap_or (db_chunks_size db pk [i]) 0) (2 ^ 64)
                  ltac:(lia)).
    apply Z.mod_small. lia.
  - intros c now. LifecycleFacts.destruct_chunk c.
    split; [intro tn | ]; reflexivity.
Qed.

End Facts.

Local Open Scope string_scope.

Lemma chunk_queries_follow_transitions_witness :
  let hs (x : Z) (tn : string) := String.eqb tn "cpu" in
  let dhs (x : Z) (pk tn : string) (ids : list Z) := String.eqb tn "mem" in
  let dsz (x : Z) (pk : string) (ids : list Z) := Some 40%Z in
  let sz (x : Z) := x in
  let c := with_state (@new_open Z Z Z "p" 1 0) (WritingToObjectStore 3) in
  fst (set_moved 3 (with_state c (Moving 0))) = ROk tt /\
  fst (set_written_to_object_store 2 c) = ROk tt /\ 0 <= 2 /\
  2 + @size Z Z Z sz dsz sz c < 2 ^ 64 /\
  @has_table Z Z Z hs dhs (snd (set_moved 3 (with_state c (Moving 0)))) "mem" =
    dhs 3 "p" "mem" [1%Z] /\
  @size Z Z Z sz dsz sz (snd (set_written_to_object_store 2 c)) = 2 + @size Z Z Z sz dsz sz c.
Proof.
  intros hs dhs dsz sz c.
  pose proof (chunk_queries_follow_transitions hs sz dhs dsz sz) as (_ & Hm & Hw & _).
  split; [reflexivity | split; [reflexivity | split; [lia | split; [vm_compute; reflexivity | ]]]].
  split; [exact (Hm 3 (with_state c (Moving 0)) eq_refl "mem") | ].
  apply Hw; [reflexivity | subst sz; cbv beta; lia | vm_compute; reflexivity].
Defined.

End ChunkQueryFacts.
